(** * The skier of ceros-ski: state machine, movement, input, collisions, animation

    A shallow embedding of [src/Entities/Skier.js].  Every method of the
    [Skier] class becomes a computation in a small monad over the fields of
    [this]; the collaborators the class only talks to through an interface
    (the Constants module, the image manager, the obstacle manager and
    [intersectTwoRects]) are parameters of the development.

    Conventions of the embedding:
    - JavaScript numbers that hold world coordinates, speeds and pixel sizes
      are exact rationals ([Q]); millisecond timestamps are integers ([Z]);
      the animation frame cursor, which only ever counts up from 0, is a
      [nat]; the direction is an integer, as in the source, so that
      [direction - 1] and [direction + 1] are the source's arithmetic.
    - [null] and [undefined] are both [None]: the source only ever tests
      them for truthiness ([!this.curAnimation]).
    - A dereference of [null] (a TypeError in JavaScript) is the outcome
      [Throws]. *)

From Stdlib Require Import ZArith QArith String List Bool Lia.
From stdpp Require Import base option countable gmap strings.

Local Open Scope string_scope.
Local Open Scope Z_scope.
Local Open Scope list_scope.

(** ** Collaborators *)

(** [IMAGE_NAMES] of the Constants module: the identifiers the skier uses. *)
Record ImageNames : Type := {
  SKIER_CRASH : string;
  SKIER_LEFT : string;
  SKIER_LEFTDOWN : string;
  SKIER_DOWN : string;
  SKIER_RIGHTDOWN : string;
  SKIER_RIGHT : string;
  SKIER_JUMP1 : string;
  SKIER_JUMP2 : string;
  SKIER_JUMP3 : string;
  SKIER_JUMP4 : string;
  SKIER_JUMP5 : string;
  JUMP_RAMP : string;
  ROCK1 : string;
  ROCK2 : string
}.

(** [KEYS] of the Constants module: the key identifiers [handleInput]
    switches on. *)
Record Keys : Type := {
  LEFT : string;
  RIGHT : string;
  UP : string;
  DOWN : string;
  SPACE : string
}.

(** [Rect] of Core/Utils: the four edges of an axis-aligned rectangle, in
    the order of the constructor's arguments. *)
Module Rect.
Record Rect : Type := mk { left : Q; top : Q; right : Q; bottom : Q }.
End Rect.
Abbreviation Rect := Rect.Rect.

(** What [imageManager.getImage] returns: the pixel size of a sprite. *)
Record Image : Type := { width : Q; height : Q }.

(** An obstacle as the skier sees it: its type tag ([imageName]) and the
    rectangle its [getBounds()] returns. *)
Module Obstacle.
Record Obstacle : Type := mk { imageName : string; getBounds : Rect }.
End Obstacle.
Abbreviation Obstacle := Obstacle.Obstacle.

(** ** Data model *)

(** The four states ([STATE_SKIING = "skiing"], ...). *)
Inductive State : Type :=
| STATE_SKIING
| STATE_JUMPING
| STATE_CRASHED
| STATE_DEAD.

(** [===] on two state strings. *)
Definition State_eqb (a b : State) : bool :=
  match a, b with
  | STATE_SKIING, STATE_SKIING
  | STATE_JUMPING, STATE_JUMPING
  | STATE_CRASHED, STATE_CRASHED
  | STATE_DEAD, STATE_DEAD => true
  | _, _ => false
  end.

#[global] Instance State_eq_dec : EqDecision State.
Proof. solve_decision. Defined.

Definition State_to_nat (st : State) : nat :=
  match st with
  | STATE_SKIING => 0
  | STATE_JUMPING => 1
  | STATE_CRASHED => 2
  | STATE_DEAD => 3
  end.

Definition State_of_nat (n : nat) : option State :=
  match n with
  | 0%nat => Some STATE_SKIING
  | 1%nat => Some STATE_JUMPING
  | 2%nat => Some STATE_CRASHED
  | 3%nat => Some STATE_DEAD
  | _ => None
  end.

#[global] Instance State_countable : Countable State.
Proof.
  apply (inj_countable State_to_nat State_of_nat).
  intros []; reflexivity.
Defined.

(** The only closure ever stored as an animation callback is
    [this.finishJumping.bind(this)]; callbacks are named, and applying one
    runs the method it is bound to. *)
Inductive Callback : Type :=
| finishJumping_bound.

(** [Animation] of Core/Animation: a sequence of images, the looping flag
    and the completion callback, read through its three getters. *)
Record Animation : Type := {
  getImages : list string;
  getLooping : bool;
  getCallback : Callback
}.

(** The fields of a [Skier] instance ([x], [y] and [imageName] come from
    the [Entity] base class). *)
Record Skier : Type := {
  x : Q;
  y : Q;
  imageName : option string;
  state : State;
  direction : Z;
  speed : Q;
  animations : gmap State Animation;
  curAnimation : option Animation;
  curAnimationFrame : nat;
  curAnimationFrameTime : Z
}.

Definition set_x (v : Q) (s : Skier) : Skier :=
  {| x := v; y := y s; imageName := imageName s; state := state s;
     direction := direction s; speed := speed s; animations := animations s;
     curAnimation := curAnimation s; curAnimationFrame := curAnimationFrame s;
     curAnimationFrameTime := curAnimationFrameTime s |}.

Definition set_y (v : Q) (s : Skier) : Skier :=
  {| x := x s; y := v; imageName := imageName s; state := state s;
     direction := direction s; speed := speed s; animations := animations s;
     curAnimation := curAnimation s; curAnimationFrame := curAnimationFrame s;
     curAnimationFrameTime := curAnimationFrameTime s |}.

Definition set_imageName (v : option string) (s : Skier) : Skier :=
  {| x := x s; y := y s; imageName := v; state := state s;
     direction := direction s; speed := speed s; animations := animations s;
     curAnimation := curAnimation s; curAnimationFrame := curAnimationFrame s;
     curAnimationFrameTime := curAnimationFrameTime s |}.

Definition set_state (v : State) (s : Skier) : Skier :=
  {| x := x s; y := y s; imageName := imageName s; state := v;
     direction := direction s; speed := speed s; animations := animations s;
     curAnimation := curAnimation s; curAnimationFrame := curAnimationFrame s;
     curAnimationFrameTime := curAnimationFrameTime s |}.

Definition set_direction (v : Z) (s : Skier) : Skier :=
  {| x := x s; y := y s; imageName := imageName s; state := state s;
     direction := v; speed := speed s; animations := animations s;
     curAnimation := curAnimation s; curAnimationFrame := curAnimationFrame s;
     curAnimationFrameTime := curAnimationFrameTime s |}.

Definition set_speed (v : Q) (s : Skier) : Skier :=
  {| x := x s; y := y s; imageName := imageName s; state := state s;
     direction := direction s; speed := v; animations := animations s;
     curAnimation := curAnimation s; curAnimationFrame := curAnimationFrame s;
     curAnimationFrameTime := curAnimationFrameTime s |}.

Definition set_animations (v : gmap State Animation) (s : Skier) : Skier :=
  {| x := x s; y := y s; imageName := imageName s; state := state s;
     direction := direction s; speed := speed s; animations := v;
     curAnimation := curAnimation s; curAnimationFrame := curAnimationFrame s;
     curAnimationFrameTime := curAnimationFrameTime s |}.

Definition set_curAnimation (v : option Animation) (s : Skier) : Skier :=
  {| x := x s; y := y s; imageName := imageName s; state := state s;
     direction := direction s; speed := speed s; animations := animations s;
     curAnimation := v; curAnimationFrame := curAnimationFrame s;
     curAnimationFrameTime := curAnimationFrameTime s |}.

Definition set_curAnimationFrame (v : nat) (s : Skier) : Skier :=
  {| x := x s; y := y s; imageName := imageName s; state := state s;
     direction := direction s; speed := speed s; animations := animations s;
     curAnimation := curAnimation s; curAnimationFrame := v;
     curAnimationFrameTime := curAnimationFrameTime s |}.

Definition set_curAnimationFrameTime (v : Z) (s : Skier) : Skier :=
  {| x := x s; y := y s; imageName := imageName s; state := state s;
     direction := direction s; speed := speed s; animations := animations s;
     curAnimation := curAnimation s; curAnimationFrame := curAnimationFrame s;
     curAnimationFrameTime := v |}.

(** ** Method calls as computations on [this] *)

(** The outcome of a method call: a TypeError, or a return value together
    with the fields of [this] afterwards and the callbacks that were applied
    during the call, oldest first. *)
Inductive Outcome (A : Type) : Type :=
| Throws
| Returns (v : A) (this : Skier) (fired : list Callback).
Arguments Throws {A}.
Arguments Returns {A} v this fired.

Definition M (A : Type) : Type := Skier -> Outcome A.

(** Sequencing two steps of a method body: a TypeError aborts the rest,
    and the callbacks applied by both steps are kept in order. *)
Definition bindM {A B : Type} (m : M A) (k : A -> M B) : M B :=
  fun s =>
    match m s with
    | Throws => Throws
    | Returns v s1 fired1 =>
        match k v s1 with
        | Throws => Throws
        | Returns w s2 fired2 => Returns w s2 (fired1 ++ fired2)
        end
    end.

Declare Scope skier_scope.
Delimit Scope skier_scope with skier.
Notation "x ← y ; z" := (bindM y (fun x => z))
  (at level 20, y at level 100, z at level 200, only parsing) : skier_scope.
Notation "x ;; z" := (bindM x (fun _ => z))
  (at level 100, z at level 200, only parsing, right associativity) : skier_scope.
Local Open Scope skier_scope.

(** Reading a field of [this]. *)
Definition get {A : Type} (field : Skier -> A) : M A :=
  fun s => Returns (field s) s [].

(** Assigning to a field of [this]. *)
Definition assign (setter : Skier -> Skier) : M unit :=
  fun s => Returns tt (setter s) [].

(** [this.curAnimation.m()]: throws when the reference is null. *)
Definition deref_curAnimation : M Animation :=
  fun s =>
    match curAnimation s with
    | Some a => Returns a s []
    | None => Throws
    end.

(** A bare [return;], or falling off the end of a method. *)
Definition return_ : M unit := fun s => Returns tt s [].

(** [return v;] *)
Definition return_value {A : Type} (v : A) : M A := fun s => Returns v s [].

(** Recording that a callback was applied. *)
Definition fire (cb : Callback) : M unit :=
  fun s => Returns tt s [cb].

(** ** A sample configuration

    Concrete values for the collaborators, used to run the model on explicit
    inputs.  The identifiers are pairwise distinct strings; their spelling
    plays no part in any result. *)

Definition sample_names : ImageNames :=
  {| SKIER_CRASH := "skierCrash";
     SKIER_LEFT := "skierLeft";
     SKIER_LEFTDOWN := "skierLeftDown";
     SKIER_DOWN := "skierDown";
     SKIER_RIGHTDOWN := "skierRightDown";
     SKIER_RIGHT := "skierRight";
     SKIER_JUMP1 := "skierJump1";
     SKIER_JUMP2 := "skierJump2";
     SKIER_JUMP3 := "skierJump3";
     SKIER_JUMP4 := "skierJump4";
     SKIER_JUMP5 := "skierJump5";
     JUMP_RAMP := "jumpRamp";
     ROCK1 := "rock1";
     ROCK2 := "rock2" |}.

Definition sample_keys : Keys :=
  {| LEFT := "ArrowLeft";
     RIGHT := "ArrowRight";
     UP := "ArrowUp";
     DOWN := "ArrowDown";
     SPACE := " " |}.

(** Modelled from the spec: [intersectTwoRects] of Core/Utils is not among
    the sources.  Two rectangles overlap iff neither is entirely to one side
    of the other on either axis, and touching edges do not count (strict
    inequalities). *)
Definition sample_intersectTwoRects (rect1 rect2 : Rect) : bool :=
  negb (Qle_bool (Rect.right rect2) (Rect.left rect1)
        || Qle_bool (Rect.right rect1) (Rect.left rect2)
        || Qle_bool (Rect.bottom rect2) (Rect.top rect1)
        || Qle_bool (Rect.bottom rect1) (Rect.top rect2)).

(** An image manager in which every sprite is 20 by 40 pixels. *)
Definition sample_getImage (name : option string) : Image :=
  {| width := 20; height := 40 |}.

(** A tree (a type in neither obstacle set), a rock and a ramp, each around
    the point (100, 100), and a tree far away from it. *)
Definition sample_tree : Obstacle :=
  Obstacle.mk "tree" (Rect.mk 80 60 120 140).

Definition sample_rock : Obstacle :=
  Obstacle.mk "rock1" (Rect.mk 80 60 120 140).

Definition sample_ramp : Obstacle :=
  Obstacle.mk "jumpRamp" (Rect.mk 80 60 120 140).

Definition sample_far_tree : Obstacle :=
  Obstacle.mk "tree" (Rect.mk 1000 1000 1040 1080).

(** ** The class *)

Section Skier.

(** The imports of Skier.js that are not part of the sources at hand.
    [DIAGONAL_SPEED_REDUCER] divides the speed on diagonal moves,
    [ANIMATION_FRAME_SPEED_MS] is the display time of one animation frame,
    [intersectTwoRects] is the overlap test of Core/Utils and [getImage] is
    [imageManager.getImage], which answers every identifier with a size. *)
Variable IMAGE_NAMES : ImageNames.
Variable KEYS : Keys.
Variable DIAGONAL_SPEED_REDUCER : Q.
Variable ANIMATION_FRAME_SPEED_MS : Z.
Variable intersectTwoRects : Rect -> Rect -> bool.
Variable getImage : option string -> Image.

Definition STARTING_SPEED : Q := 1.

Definition JUMP_INITIATING_OBSTACLES : gset string :=
  {[ IMAGE_NAMES.(JUMP_RAMP) ]}.

Definition JUMPABLE_OBSTACLES : gset string :=
  {[ IMAGE_NAMES.(JUMP_RAMP); IMAGE_NAMES.(ROCK1); IMAGE_NAMES.(ROCK2) ]}.

Definition DIRECTION_LEFT : Z := 0.
Definition DIRECTION_LEFT_DOWN : Z := 1.
Definition DIRECTION_DOWN : Z := 2.
Definition DIRECTION_RIGHT_DOWN : Z := 3.
Definition DIRECTION_RIGHT : Z := 4.

Definition IMAGES_JUMPING : list string :=
  [ IMAGE_NAMES.(SKIER_JUMP1);
    IMAGE_NAMES.(SKIER_JUMP2);
    IMAGE_NAMES.(SKIER_JUMP3);
    IMAGE_NAMES.(SKIER_JUMP4);
    IMAGE_NAMES.(SKIER_JUMP5) ].

Definition DIRECTION_IMAGES : gmap Z string :=
  {[ DIRECTION_LEFT := IMAGE_NAMES.(SKIER_LEFT);
     DIRECTION_LEFT_DOWN := IMAGE_NAMES.(SKIER_LEFTDOWN);
     DIRECTION_DOWN := IMAGE_NAMES.(SKIER_DOWN);
     DIRECTION_RIGHT_DOWN := IMAGE_NAMES.(SKIER_RIGHTDOWN);
     DIRECTION_RIGHT := IMAGE_NAMES.(SKIER_RIGHT) ]}.

(** [new Animation(IMAGES_JUMPING, false, this.finishJumping.bind(this))] *)
Definition jumpAnimation : Animation :=
  {| getImages := IMAGES_JUMPING;
     getLooping := false;
     getCallback := finishJumping_bound |}.

Definition setupAnimations : M unit :=
  anims ← get animations;
  assign (set_animations (<[STATE_JUMPING := jumpAnimation]> anims)).

Definition setAnimation : M unit :=
  anims ← get animations;
  st ← get state;
  assign (set_curAnimation (anims !! st)) ;;
  cur ← get curAnimation;
  match cur with
  | None => return_
  | Some a =>
      assign (set_curAnimationFrame 0%nat) ;;
      let animateImages := getImages a in
      frame ← get curAnimationFrame;
      assign (set_imageName (animateImages !! frame))
  end.

Definition setState (newState : State) : M unit :=
  assign (set_state newState) ;;
  setAnimation.

Definition isCrashed : M bool :=
  st ← get state; return_value (State_eqb st STATE_CRASHED).

Definition isJumping : M bool :=
  st ← get state; return_value (State_eqb st STATE_JUMPING).

Definition isSkiing : M bool :=
  st ← get state; return_value (State_eqb st STATE_SKIING).

Definition isDead : M bool :=
  st ← get state; return_value (State_eqb st STATE_DEAD).

Definition setDirectionalImage : M unit :=
  d ← get direction;
  assign (set_imageName (DIRECTION_IMAGES !! d)).

Definition setDirection (newDirection : Z) : M unit :=
  assign (set_direction newDirection) ;;
  setDirectionalImage.

Definition moveSkierLeft : M unit :=
  x0 ← get x; assign (set_x (x0 - STARTING_SPEED)%Q).

Definition moveSkierLeftDown : M unit :=
  x0 ← get x; v ← get speed;
  assign (set_x (x0 - v / DIAGONAL_SPEED_REDUCER)%Q) ;;
  y0 ← get y; v' ← get speed;
  assign (set_y (y0 + v' / DIAGONAL_SPEED_REDUCER)%Q).

Definition moveSkierDown : M unit :=
  y0 ← get y; v ← get speed; assign (set_y (y0 + v)%Q).

Definition moveSkierRightDown : M unit :=
  x0 ← get x; v ← get speed;
  assign (set_x (x0 + v / DIAGONAL_SPEED_REDUCER)%Q) ;;
  y0 ← get y; v' ← get speed;
  assign (set_y (y0 + v' / DIAGONAL_SPEED_REDUCER)%Q).

Definition moveSkierRight : M unit :=
  x0 ← get x; assign (set_x (x0 + STARTING_SPEED)%Q).

Definition moveSkierUp : M unit :=
  y0 ← get y; assign (set_y (y0 - STARTING_SPEED)%Q).

(** The [switch] of [move]: the two horizontal directions, like any value
    that matches no [case], move nothing. *)
Definition move : M unit :=
  d ← get direction;
  if d =? DIRECTION_LEFT_DOWN then moveSkierLeftDown
  else if d =? DIRECTION_DOWN then moveSkierDown
  else if d =? DIRECTION_RIGHT_DOWN then moveSkierRightDown
  else return_.

Definition crash : M unit :=
  assign (set_state STATE_CRASHED) ;;
  assign (set_speed 0%Q) ;;
  assign (set_imageName (Some IMAGE_NAMES.(SKIER_CRASH))).

Definition recoverFromCrash (newDirection : Z) : M unit :=
  assign (set_state STATE_SKIING) ;;
  assign (set_speed STARTING_SPEED) ;;
  setDirection newDirection.

Definition die : M unit :=
  assign (set_state STATE_DEAD) ;;
  assign (set_speed 0%Q).

Definition jump : M unit :=
  crashed ← isCrashed;
  jumping ← isJumping;
  if crashed || jumping then return_
  else setState STATE_JUMPING.

Definition finishJumping : M unit :=
  crashed ← isCrashed;
  if crashed then return_
  else assign (set_state STATE_SKIING).

(** [animationCallback.apply()]: the call is recorded and the method the
    closure is bound to runs on this skier. *)
Definition apply (cb : Callback) : M unit :=
  fire cb ;;
  match cb with
  | finishJumping_bound => finishJumping
  end.

Definition finishAnimation : M unit :=
  a ← deref_curAnimation;
  let animationCallback := getCallback a in
  assign (set_curAnimation None) ;;
  apply animationCallback.

Definition nextAnimationFrame (gameTime : Z) : M unit :=
  a ← deref_curAnimation;
  let animationImages := getImages a in
  assign (set_curAnimationFrameTime gameTime) ;;
  frame ← get curAnimationFrame;
  assign (set_curAnimationFrame (S frame)) ;;
  frame' ← get curAnimationFrame;
  if (length animationImages <=? frame')%nat then
    b ← deref_curAnimation;
    if negb (getLooping b) then finishAnimation
    else
      assign (set_curAnimationFrame 0%nat) ;;
      frame'' ← get curAnimationFrame;
      assign (set_imageName (animationImages !! frame''))
  else
    assign (set_imageName (animationImages !! frame')).

Definition animate (gameTime : Z) : M unit :=
  cur ← get curAnimation;
  match cur with
  | None => return_
  | Some _ =>
      last ← get curAnimationFrameTime;
      if gameTime - last >? ANIMATION_FRAME_SPEED_MS
      then nextAnimationFrame gameTime
      else return_
  end.

Definition getBounds : M Rect :=
  name ← get imageName;
  let image := getImage name in
  x0 ← get x; y0 ← get y;
  return_value (Rect.mk (x0 - width image / 2)%Q
                        (y0 - height image / 2)%Q
                        (x0 + width image / 2)%Q
                        (y0 - height image / 4)%Q).

(** [obstacles] is what [this.obstacleManager.getObstacles()] returns in
    this frame; [find] keeps the first obstacle whose bounds intersect the
    skier's. *)
Definition checkIfHitObstacle (obstacles : list Obstacle) : M unit :=
  skierBounds ← getBounds;
  let collision :=
    List.find (fun obstacle =>
                 let obstacleBounds := Obstacle.getBounds obstacle in
                 intersectTwoRects skierBounds obstacleBounds)
              obstacles in
  match collision with
  | None => return_
  | Some hit =>
      let obstacle := Obstacle.imageName hit in
      jumping ← isJumping;
      if jumping && bool_decide (obstacle ∈ JUMPABLE_OBSTACLES) then return_
      else
        skiing ← isSkiing;
        if skiing && bool_decide (obstacle ∈ JUMP_INITIATING_OBSTACLES)
        then jump
        else crash
  end.

Definition update (obstacles : list Obstacle) (gameTime : Z) : M unit :=
  jumping ← isJumping;
  skiing ← isSkiing;
  (if jumping || skiing
   then move ;; checkIfHitObstacle obstacles
   else return_) ;;
  jumping' ← isJumping;
  if jumping' then animate gameTime else return_.

Definition turnLeft : M unit :=
  crashed ← isCrashed;
  (if crashed then recoverFromCrash DIRECTION_LEFT else return_) ;;
  d ← get direction;
  if d =? DIRECTION_LEFT then moveSkierLeft
  else setDirection (d - 1).

Definition turnRight : M unit :=
  crashed ← isCrashed;
  (if crashed then recoverFromCrash DIRECTION_RIGHT else return_) ;;
  d ← get direction;
  if d =? DIRECTION_RIGHT then moveSkierRight
  else setDirection (d + 1).

Definition turnUp : M unit :=
  crashed ← isCrashed;
  if crashed then return_
  else
    d ← get direction;
    if (d =? DIRECTION_LEFT) || (d =? DIRECTION_RIGHT) then moveSkierUp
    else return_.

Definition turnDown : M unit :=
  crashed ← isCrashed;
  if crashed then return_
  else setDirection DIRECTION_DOWN.

(** The [switch] of [handleInput].  [handled] starts out [true]; the four
    arrow cases end in [break]; the [KEYS.SPACE] case has no [break], so
    control runs on into [default], which clears [handled]. *)
Definition handleInput (inputKey : string) : M bool :=
  dead ← isDead;
  if dead then return_value false
  else
    let handled := true in
    if String.eqb inputKey KEYS.(LEFT) then turnLeft ;; return_value handled
    else if String.eqb inputKey KEYS.(RIGHT) then turnRight ;; return_value handled
    else if String.eqb inputKey KEYS.(UP) then turnUp ;; return_value handled
    else if String.eqb inputKey KEYS.(DOWN) then turnDown ;; return_value handled
    else if String.eqb inputKey KEYS.(SPACE) then
      jump ;;
      let handled := false in
      return_value handled
    else
      let handled := false in
      return_value handled.

(** The field initialisers of the class and of [Entity]'s constructor;
    [now] is the value of [Date.now()] at construction. *)
Definition fields (x0 y0 : Q) (now : Z) : Skier :=
  {| x := x0;
     y := y0;
     imageName := Some IMAGE_NAMES.(SKIER_DOWN);
     state := STATE_SKIING;
     direction := DIRECTION_DOWN;
     speed := STARTING_SPEED;
     animations := ∅;
     curAnimation := None;
     curAnimationFrame := 0%nat;
     curAnimationFrameTime := now |}.

(** The body of the constructor after [super(...)] and the field
    initialisers. *)
Definition constructor : M unit :=
  setupAnimations ;;
  setAnimation.

(** ** The driver

    The game loop calls [update] once per frame and [handleInput] on every
    key event; the pursuer calls [die] when it catches the skier. *)

Inductive Call : Type :=
| CallUpdate (obstacles : list Obstacle) (gameTime : Z)
| CallHandleInput (inputKey : string)
| CallDie.

Definition call (c : Call) : M unit :=
  match c with
  | CallUpdate obstacles gameTime => update obstacles gameTime
  | CallHandleInput inputKey => handleInput inputKey ;; return_
  | CallDie => die
  end.

Fixpoint calls (cs : list Call) : M unit :=
  match cs with
  | [] => return_
  | c :: cs' => call c ;; calls cs'
  end.

(** The animation steps of consecutive frames: [animate] at each of the
    game times in turn. *)
Fixpoint animates (times : list Z) : M unit :=
  match times with
  | [] => return_
  | gameTime :: times' => animate gameTime ;; animates times'
  end.

Definition is_die (c : Call) : bool :=
  match c with
  | CallDie => true
  | _ => false
  end.

(** [s] is the skier after construction at [(x0, y0)] followed by the calls
    [cs]. *)
Definition reached_by (cs : list Call) (s : Skier) : Prop :=
  exists x0 y0 now fired,
    (constructor ;; calls cs) (fields x0 y0 now) = Returns tt s fired.

(** Reachable through [update], [handleInput] and [die]. *)
Definition reachable (s : Skier) : Prop :=
  exists cs, reached_by cs s.

(** Reachable through [update] and [handleInput] alone. *)
Definition reachable_without_die (s : Skier) : Prop :=
  exists cs, forallb (fun c => negb (is_die c)) cs = true /\ reached_by cs s.

(** ** Invariants *)

(** A stopped skier: crashed or dead implies speed 0. *)
Definition stopped_when_down (s : Skier) : Prop :=
  state s = STATE_CRASHED \/ state s = STATE_DEAD -> speed s = 0%Q.

(** The animation table holds the jump animation, and a jumping skier is
    playing it, with the cursor on one of its five images. *)
Definition jumping_is_animated (s : Skier) : Prop :=
  animations s !! STATE_JUMPING = Some jumpAnimation /\
  (state s = STATE_JUMPING ->
   curAnimation s = Some jumpAnimation /\ (curAnimationFrame s < 5)%nat).

(** The direction is one of the five, and there is an image to draw. *)
Definition drawable (s : Skier) : Prop :=
  DIRECTION_LEFT <= direction s <= DIRECTION_RIGHT /\
  imageName s <> None.

(** A skier that moves does so at the starting speed. *)
Definition full_speed_when_up (s : Skier) : Prop :=
  state s = STATE_SKIING \/ state s = STATE_JUMPING ->
  speed s = STARTING_SPEED.

(** The animation table is the one [setupAnimations] built, the current
    animation is none or the jump animation, and the cursor has not run
    further than one past its last image. *)
Definition animation_in_order (s : Skier) : Prop :=
  animations s = <[STATE_JUMPING := jumpAnimation]> ∅ /\
  (curAnimation s = None \/ curAnimation s = Some jumpAnimation) /\
  (curAnimationFrame s <= 5)%nat.

(** ** Proof tools *)

(** Unfolding every method down to reads and writes of fields. *)
Ltac methods :=
  cbv beta iota zeta delta
    [call update handleInput checkIfHitObstacle animate nextAnimationFrame
     finishAnimation apply finishJumping turnLeft turnRight turnUp turnDown
     jump setState setAnimation recoverFromCrash setDirection
     setDirectionalImage crash die move moveSkierLeft moveSkierRight
     moveSkierUp moveSkierDown moveSkierLeftDown moveSkierRightDown getBounds
     constructor setupAnimations isCrashed isJumping isSkiing isDead
     bindM get assign return_ return_value fire deref_curAnimation
     set_x set_y set_imageName set_state set_direction set_speed
     set_animations set_curAnimation set_curAnimationFrame
     set_curAnimationFrameTime] in *.

(** One case split on a test of the goal that has no test inside it, so
    that the body runs in program order. *)
Ltac innermost_case :=
  match goal with
  | |- context [match ?o with _ => _ end] =>
      lazymatch o with
      | context [match _ with _ => _ end] => fail
      | context [bool_decide _] => fail
      | context [andb _ _] => fail
      | context [orb _ _] => fail
      | _ => destruct o eqn:?
      end
  | |- context [bool_decide ?P] => destruct (bool_decide_reflect P)
  | |- context [andb ?a _] =>
      lazymatch a with
      | context [match _ with _ => _ end] => fail
      | _ => destruct a eqn:?
      end
  | |- context [orb ?a _] =>
      lazymatch a with
      | context [match _ with _ => _ end] => fail
      | _ => destruct a eqn:?
      end
  end.

Ltac run := repeat (cbn; try innermost_case).

(** ** No method of the driver's interface throws *)

Lemma update_returns obstacles gameTime s :
  exists s' fired, update obstacles gameTime s = Returns tt s' fired.
Proof.
  destruct s as [x0 y0 img st d v an cur fr ft]. methods.
  destruct st; run; eauto.
Qed.

Lemma handleInput_returns inputKey s :
  exists handled s' fired, handleInput inputKey s = Returns handled s' fired.
Proof.
  destruct s as [x0 y0 img st d v an cur fr ft]. methods.
  destruct st; run; eauto.
Qed.

Lemma die_returns s :
  die s = Returns tt (set_speed 0%Q (set_state STATE_DEAD s)) [].
Proof. reflexivity. Qed.

Lemma call_returns c s :
  exists s' fired, call c s = Returns tt s' fired.
Proof.
  destruct c as [obstacles gameTime | inputKey | ].
  - apply update_returns.
  - destruct (handleInput_returns inputKey s) as (handled & s' & fired & E).
    exists s', (fired ++ []). unfold call, bindM. rewrite E. reflexivity.
  - eexists _, _. apply die_returns.
Qed.

Lemma calls_returns cs : forall s,
  exists s' fired, calls cs s = Returns tt s' fired.
Proof.
  induction cs as [ | c cs IH]; intros s.
  - eexists _, _. reflexivity.
  - destruct (call_returns c s) as (s1 & fired1 & E1).
    destruct (IH s1) as (s2 & fired2 & E2).
    exists s2, (fired1 ++ fired2).
    cbn [calls]. unfold bindM. rewrite E1, E2. reflexivity.
Qed.

Lemma constructor_returns x0 y0 now :
  constructor (fields x0 y0 now) =
  Returns tt (set_animations (<[STATE_JUMPING := jumpAnimation]> ∅)
                (fields x0 y0 now)) [].
Proof. reflexivity. Qed.

(** Splitting a run of calls at its last call. *)
Lemma calls_snoc cs c s :
  calls (cs ++ [c]) s = (calls cs ;; call c) s.
Proof.
  revert s. induction cs as [ | c0 cs IH]; intros s.
  - cbn [calls app]. unfold bindM, return_.
    destruct (call c s) as [ | [] s' fired]; [reflexivity | ].
    rewrite app_nil_r. reflexivity.
  - cbn [calls app]. unfold bindM in *.
    destruct (call c0 s) as [ | [] s1 fired1]; [reflexivity | ].
    rewrite IH.
    destruct (calls cs s1) as [ | [] s2 fired2]; [reflexivity | ].
    destruct (call c s2) as [ | [] s3 fired3]; [reflexivity | ].
    rewrite app_assoc. reflexivity.
Qed.

(** A property that holds after construction and that every call
    preserves holds in every reachable state. *)
Lemma reached_by_ind (P : Skier -> Prop) :
  (forall x0 y0 now s fired,
      constructor (fields x0 y0 now) = Returns tt s fired -> P s) ->
  (forall c s s' fired, P s -> call c s = Returns tt s' fired -> P s') ->
  forall cs s, reached_by cs s -> P s.
Proof.
  intros Hinit Hstep cs s (x0 & y0 & now & fired & Hrun).
  unfold bindM in Hrun.
  destruct (constructor (fields x0 y0 now)) as [ | [] s0 fired0] eqn:E0;
    [discriminate | ].
  apply Hinit in E0. clear Hinit.
  revert s0 fired0 fired E0 Hrun.
  induction cs as [ | c cs IH]; intros s0 fired0 fired P0 Hrun.
  - cbn in Hrun. inversion Hrun; subst. exact P0.
  - cbn [calls] in Hrun. unfold bindM in Hrun.
    destruct (call c s0) as [ | [] s1 fired1] eqn:E1; [discriminate | ].
    destruct (calls cs s1) as [ | [] s2 fired2] eqn:E2; [discriminate | ].
    inversion Hrun; subst.
    apply (IH s1 [] (fired2)).
    + eapply Hstep; eassumption.
    + rewrite E2. reflexivity.
Qed.

(** ** The dead state *)

Lemma update_dead obstacles gameTime s :
  state s = STATE_DEAD -> update obstacles gameTime s = Returns tt s [].
Proof.
  destruct s as [x0 y0 img st d v an cur fr ft]. cbn. intros ->. reflexivity.
Qed.

Lemma handleInput_dead inputKey s :
  state s = STATE_DEAD -> handleInput inputKey s = Returns false s [].
Proof.
  destruct s as [x0 y0 img st d v an cur fr ft]. cbn. intros ->. reflexivity.
Qed.

(** C6: once [state] is dead, [update] does nothing at all (no movement, no
    collision check, no animation advance: every field is as before and no
    callback is applied), [handleInput] reports every key as unhandled and
    changes nothing, and so no sequence of [update] and [handleInput] calls
    ever leaves the dead state. *)
Theorem dead_is_terminal s :
  state s = STATE_DEAD ->
  (forall obstacles gameTime, update obstacles gameTime s = Returns tt s []) /\
  (forall inputKey, handleInput inputKey s = Returns false s []) /\
  (forall cs, forallb (fun c => negb (is_die c)) cs = true ->
              calls cs s = Returns tt s []).
Proof.
  intros Hdead. split; [ | split].
  - intros obstacles gameTime. apply update_dead, Hdead.
  - intros inputKey. apply handleInput_dead, Hdead.
  - induction cs as [ | c cs IH]; intros Hcs; [reflexivity | ].
    cbn [forallb] in Hcs. apply andb_true_iff in Hcs as [Hc Hcs].
    cbn [calls]. unfold bindM.
    destruct c as [obstacles gameTime | inputKey | ]; [ | | discriminate Hc];
      cbn [call]; unfold bindM.
    + rewrite (update_dead _ _ _ Hdead), (IH Hcs). reflexivity.
    + rewrite (handleInput_dead _ _ Hdead). cbn. rewrite (IH Hcs). reflexivity.
Qed.

(** ** Movement *)

(** C7: a skier at (100, 100), skiing, facing down at speed 1: one [update]
    in which no obstacle of the obstacle manager intersects the skier's
    bounds moves [y] to 101, that is by exactly 1, and leaves [x] at 100. *)
Theorem scenario_A_one_frame_down s obstacles gameTime :
  x s = 100%Q -> y s = 100%Q ->
  state s = STATE_SKIING -> direction s = DIRECTION_DOWN -> speed s = 1%Q ->
  (forall s1 bounds,
      move s = Returns tt s1 [] ->
      getBounds s1 = Returns bounds s1 [] ->
      forall obstacle, In obstacle obstacles ->
        intersectTwoRects bounds (Obstacle.getBounds obstacle) = false) ->
  exists s',
    update obstacles gameTime s = Returns tt s' [] /\
    y s' = 101%Q /\ y s' = (y s + 1)%Q /\ x s' = x s /\ x s' = 100%Q /\
    state s' = STATE_SKIING.
Proof.
  destruct s as [x0 y0 img st d v an cur fr ft]. cbn.
  intros -> -> -> -> -> Hclear.
  specialize (Hclear _ _ eq_refl eq_refl).
  methods. cbn.
  destruct (find _ obstacles) as [hit | ] eqn:Hfind.
  - apply find_some in Hfind as [Hin Hhit].
    specialize (Hclear hit Hin). cbn in Hclear, Hhit. congruence.
  - cbn. eexists. repeat split.
Qed.

(** ** Bounds *)

(** C8: with [w] and [h] the width and height the image manager reports
    for the current sprite, [getBounds] returns left [x - w/2], top
    [y - h/2], right [x + w/2] and bottom [y - h/4]; the rectangle is
    therefore [h/4] tall, its bottom edge lying [3h/4] above the half-height
    line [y + h/2]. *)
Theorem getBounds_pulls_bottom_up s :
  let w := width (getImage (imageName s)) in
  let h := height (getImage (imageName s)) in
  exists bounds,
    getBounds s = Returns bounds s [] /\
    Rect.left bounds = (x s - w / 2)%Q /\
    Rect.top bounds = (y s - h / 2)%Q /\
    Rect.right bounds = (x s + w / 2)%Q /\
    Rect.bottom bounds = (y s - h / 4)%Q /\
    (Rect.bottom bounds - Rect.top bounds == h / 4)%Q /\
    ((y s + h / 2) - Rect.bottom bounds == 3 * h / 4)%Q.
Proof.
  intros w h. eexists. split; [reflexivity | ].
  cbn [Rect.left Rect.top Rect.right Rect.bottom].
  do 4 (split; [reflexivity | ]).
  subst w h. split; field.
Qed.

(** ** Crashed or dead implies stopped *)

Ltac conclude :=
  intros;
  repeat match goal with
         | H : Returns _ _ _ = Returns _ _ _ |- _ => inversion H; subst; clear H
         | H : Throws = Returns _ _ _ |- _ => discriminate H
         end;
  cbn in *.

Lemma call_keeps_stopped c s s' fired :
  stopped_when_down s -> call c s = Returns tt s' fired ->
  stopped_when_down s'.
Proof.
  unfold stopped_when_down.
  destruct s as [x0 y0 img st d v an cur fr ft].
  destruct c as [obstacles gameTime | inputKey | ]; methods;
    destruct st; run; conclude; intuition congruence.
Qed.

(** C5: in every state reachable from a freshly constructed skier by
    [update], [handleInput] and [die] calls, a crashed or dead skier has
    speed 0. *)
Theorem crashed_or_dead_is_stopped s :
  reachable s ->
  state s = STATE_CRASHED \/ state s = STATE_DEAD -> speed s = 0%Q.
Proof.
  intros [cs Hcs]. change (stopped_when_down s).
  apply (reached_by_ind stopped_when_down) with (cs := cs); [ | | exact Hcs].
  - intros x0 y0 now s0 fired0 H0.
    rewrite constructor_returns in H0. inversion H0; subst.
    intros [H | H]; discriminate H.
  - intros c s1 s2 fired1. apply call_keeps_stopped.
Qed.

(** ** A jumping skier is playing the jump animation *)

Lemma call_keeps_jumping_animated c s s' fired :
  jumping_is_animated s -> call c s = Returns tt s' fired ->
  jumping_is_animated s'.
Proof.
  unfold jumping_is_animated.
  destruct s as [x0 y0 img st d v an cur fr ft]. cbn. intros [Han Hjump].
  destruct st;
    try (destruct Hjump as [-> Hfr]; [reflexivity | ]);
    destruct c as [obstacles gameTime | inputKey | ]; methods;
    unfold jumpAnimation, IMAGES_JUMPING in *;
    repeat (cbn; rewrite ?Han; try innermost_case); conclude;
    (split; [assumption | ]); intros Hst; try discriminate Hst;
    try (split; [reflexivity | ]);
    repeat match goal with
           | H : (_ <=? _)%nat = false |- _ => apply Nat.leb_gt in H
           end;
    try lia.
Qed.

Lemma reachable_jumping_animated s :
  reachable s -> jumping_is_animated s.
Proof.
  intros [cs Hcs].
  apply (reached_by_ind jumping_is_animated) with (cs := cs); [ | | exact Hcs].
  - intros x0 y0 now s0 fired0 H0.
    rewrite constructor_returns in H0. inversion H0; subst.
    split; [reflexivity | intros H; discriminate H].
  - intros c s1 s2 fired1. apply call_keeps_jumping_animated.
Qed.

Lemma reachable_without_die_reachable s :
  reachable_without_die s -> reachable s.
Proof. intros (cs & _ & Hcs). exists cs. exact Hcs. Qed.

(** ** Input *)

(** The skier after [jump()] from a state that is neither crashed nor
    jumping nor dead, when the animation table holds the jump animation. *)
Lemma jump_starts_animation s :
  state s = STATE_SKIING ->
  animations s !! STATE_JUMPING = Some jumpAnimation ->
  jump s =
  Returns tt (set_imageName (Some IMAGE_NAMES.(SKIER_JUMP1))
                (set_curAnimationFrame 0%nat
                   (set_curAnimation (Some jumpAnimation)
                      (set_state STATE_JUMPING s)))) [].
Proof.
  destruct s as [x0 y0 img st d v an cur fr ft]. cbn. intros -> Han.
  methods. cbn. rewrite Han. reflexivity.
Qed.

(** What [handleInput] reports for the arrow keys and for keys it does not
    know: the four arrow keys are handled in every state but dead, and a key
    that is none of the five changes nothing and is reported unhandled. *)
Lemma handleInput_arrows_and_unknown inputKey s :
  state s <> STATE_DEAD ->
  (inputKey = KEYS.(LEFT) \/ inputKey = KEYS.(RIGHT) \/
   inputKey = KEYS.(UP) \/ inputKey = KEYS.(DOWN) ->
   exists s', handleInput inputKey s = Returns true s' []) /\
  (inputKey <> KEYS.(LEFT) -> inputKey <> KEYS.(RIGHT) ->
   inputKey <> KEYS.(UP) -> inputKey <> KEYS.(DOWN) ->
   inputKey <> KEYS.(SPACE) ->
   handleInput inputKey s = Returns false s []).
Proof.
  destruct s as [x0 y0 img st d v an cur fr ft]. cbn. intros Halive. split.
  - intros Hkey. methods.
    destruct st; try congruence;
      destruct Hkey as [-> | [-> | [-> | ->]]];
      repeat (cbn; rewrite ?String.eqb_refl; try innermost_case); eauto.
  - intros H1 H2 H3 H4 H5. apply String.eqb_neq in H1, H2, H3, H4, H5.
    methods. destruct st; try congruence; cbn;
      rewrite H1, H2, H3, H4, H5; reflexivity.
Qed.

(** C1, at the jump key: in a state that is not dead, [handleInput] on
    [KEYS.SPACE] (a key distinct from the four arrow keys) runs [jump()] and
    then, for want of a [break], the [default] branch: it returns [false].
    The skier it leaves behind is the one [jump()] leaves. *)
Theorem jump_key_reported_unhandled s :
  KEYS.(SPACE) <> KEYS.(LEFT) -> KEYS.(SPACE) <> KEYS.(RIGHT) ->
  KEYS.(SPACE) <> KEYS.(UP) -> KEYS.(SPACE) <> KEYS.(DOWN) ->
  state s <> STATE_DEAD ->
  exists s',
    jump s = Returns tt s' [] /\
    handleInput KEYS.(SPACE) s = Returns false s' [].
Proof.
  intros H1 H2 H3 H4. apply String.eqb_neq in H1, H2, H3, H4.
  destruct s as [x0 y0 img st d v an cur fr ft]. cbn. intros Halive.
  methods. destruct st; try congruence; cbn;
    rewrite H1, H2, H3, H4, String.eqb_refl; cbn;
    try (destruct (an !! STATE_JUMPING) as [a | ]; cbn);
    eexists; split; reflexivity.
Qed.

Lemma reachable_stopped s :
  reachable s -> stopped_when_down s.
Proof.
  intros [cs Hcs].
  apply (reached_by_ind stopped_when_down) with (cs := cs); [ | | exact Hcs].
  - intros x0 y0 now s0 fired0 H0.
    rewrite constructor_returns in H0. inversion H0; subst.
    intros [H | H]; discriminate H.
  - intros c s1 s2 fired1. apply call_keeps_stopped.
Qed.

(** C10, as the code has it: [turnLeft()] on a crashed skier recovers
    (state skiing, speed [STARTING_SPEED], direction full-left, the
    left-facing sprite) and, the direction now being full-left, moves [x]
    down by [STARTING_SPEED] in the same call; [turnRight()] recovers facing
    full-right and moves [x] up by [STARTING_SPEED].  [y] stays.  State and
    [x] always differ from before; the speed differs whenever it was 0, and
    so in every reachable crashed state; the direction differs exactly when
    the skier did not crash already facing the side it recovers to.
    The left arrow key reaches [turnLeft()] from the crashed state, and so
    does the right arrow key [turnRight()] when the two keys differ. *)
Theorem crash_recovery_also_moves s :
  state s = STATE_CRASHED ->
  (exists s',
      turnLeft s = Returns tt s' [] /\
      handleInput KEYS.(LEFT) s = Returns true s' [] /\
      state s' = STATE_SKIING /\ speed s' = STARTING_SPEED /\
      direction s' = DIRECTION_LEFT /\
      imageName s' = Some IMAGE_NAMES.(SKIER_LEFT) /\
      x s' = (x s - STARTING_SPEED)%Q /\ (x s' < x s)%Q /\ y s' = y s /\
      state s' <> state s /\
      (speed s = 0%Q -> speed s' <> speed s) /\
      (direction s <> DIRECTION_LEFT -> direction s' <> direction s) /\
      (reachable s -> speed s' <> speed s) /\
      (direction s = DIRECTION_LEFT -> direction s' = direction s)) /\
  (exists s',
      turnRight s = Returns tt s' [] /\
      (KEYS.(RIGHT) <> KEYS.(LEFT) ->
       handleInput KEYS.(RIGHT) s = Returns true s' []) /\
      state s' = STATE_SKIING /\ speed s' = STARTING_SPEED /\
      direction s' = DIRECTION_RIGHT /\
      imageName s' = Some IMAGE_NAMES.(SKIER_RIGHT) /\
      x s' = (x s + STARTING_SPEED)%Q /\ (x s < x s')%Q /\ y s' = y s /\
      state s' <> state s /\
      (speed s = 0%Q -> speed s' <> speed s) /\
      (direction s <> DIRECTION_RIGHT -> direction s' <> direction s) /\
      (reachable s -> speed s' <> speed s) /\
      (direction s = DIRECTION_RIGHT -> direction s' = direction s)).
Proof.
  intros Hst.
  assert (Hstop : reachable s -> speed s = 0%Q).
  { intros Hr. apply (reachable_stopped s Hr). left. exact Hst. }
  destruct s as [x0 y0 img st d v an cur fr ft]. cbn in Hst. subst st.
  split; eexists; (split; [reflexivity | ]); cbn.
  - split; [methods; cbn; rewrite String.eqb_refl; reflexivity | ].
    repeat (split; [reflexivity | ]).
    split; [ | split; [reflexivity | ]].
    { unfold STARTING_SPEED.
      rewrite Qlt_minus_iff. ring_simplify. reflexivity. }
    split; [discriminate | ].
    split; [intros ->; discriminate | ].
    split; [intros Hd; congruence | ].
    split; [ | intros ->; reflexivity].
    intros Hr. apply Hstop in Hr. cbn in Hr. rewrite Hr. discriminate.
  - split.
    { intros Hne. apply String.eqb_neq in Hne.
      methods. cbn. rewrite Hne, String.eqb_refl. reflexivity. }
    repeat (split; [reflexivity | ]).
    split; [ | split; [reflexivity | ]].
    { unfold STARTING_SPEED.
      rewrite Qlt_minus_iff. ring_simplify. reflexivity. }
    split; [discriminate | ].
    split; [intros ->; discriminate | ].
    split; [intros Hd; congruence | ].
    split; [ | intros ->; reflexivity].
    intros Hr. apply Hstop in Hr. cbn in Hr. rewrite Hr. discriminate.
Qed.

(** C9, as the code has it: while jumping, the left, right and down arrow
    keys are not blocked: [handleInput] reports each of them handled and
    runs [turnLeft()], [turnRight()] and [turnDown()] (the keys being
    distinct from those tested before them), and none of the three touches
    the state, the current animation or the frame cursor.  [turnDown()] sets
    the direction to down and overwrites the image with the down sprite.
    [turnLeft()] steps the direction by one and overwrites the image with
    the sprite of the new direction, unless the skier already faces
    full-left: then direction and image stay as they are and [x] moves by
    [STARTING_SPEED] instead.  [turnRight()] mirrors it. *)
Theorem turning_while_jumping s :
  state s = STATE_JUMPING ->
  (exists s',
      turnLeft s = Returns tt s' [] /\
      handleInput KEYS.(LEFT) s = Returns true s' [] /\
      state s' = STATE_JUMPING /\
      curAnimation s' = curAnimation s /\
      curAnimationFrame s' = curAnimationFrame s /\
      (direction s <> DIRECTION_LEFT ->
       direction s' = direction s - 1 /\
       imageName s' = DIRECTION_IMAGES !! (direction s - 1) /\
       x s' = x s) /\
      (direction s = DIRECTION_LEFT ->
       direction s' = direction s /\ imageName s' = imageName s /\
       x s' = (x s - STARTING_SPEED)%Q)) /\
  (exists s',
      turnRight s = Returns tt s' [] /\
      (KEYS.(RIGHT) <> KEYS.(LEFT) ->
       handleInput KEYS.(RIGHT) s = Returns true s' []) /\
      state s' = STATE_JUMPING /\
      curAnimation s' = curAnimation s /\
      curAnimationFrame s' = curAnimationFrame s /\
      (direction s <> DIRECTION_RIGHT ->
       direction s' = direction s + 1 /\
       imageName s' = DIRECTION_IMAGES !! (direction s + 1) /\
       x s' = x s) /\
      (direction s = DIRECTION_RIGHT ->
       direction s' = direction s /\ imageName s' = imageName s /\
       x s' = (x s + STARTING_SPEED)%Q)) /\
  (exists s',
      turnDown s = Returns tt s' [] /\
      (KEYS.(DOWN) <> KEYS.(LEFT) -> KEYS.(DOWN) <> KEYS.(RIGHT) ->
       KEYS.(DOWN) <> KEYS.(UP) ->
       handleInput KEYS.(DOWN) s = Returns true s' []) /\
      state s' = STATE_JUMPING /\
      curAnimation s' = curAnimation s /\
      curAnimationFrame s' = curAnimationFrame s /\
      direction s' = DIRECTION_DOWN /\
      imageName s' = DIRECTION_IMAGES !! DIRECTION_DOWN /\
      imageName s' = Some IMAGE_NAMES.(SKIER_DOWN)).
Proof.
  destruct s as [x0 y0 img st d v an cur fr ft]. cbn. intros ->.
  split; [ | split].
  - methods. cbn. rewrite String.eqb_refl. cbn.
    destruct (Z.eqb_spec d DIRECTION_LEFT) as [Hd | Hd]; cbn;
      eexists; repeat (split; [reflexivity | ]);
      split; intros Hdir; first [contradiction | repeat split].
  - methods. cbn.
    destruct (Z.eqb_spec d DIRECTION_RIGHT) as [Hd | Hd]; cbn;
      eexists; (split; [reflexivity | ]);
      (split;
       [ intros Hne; apply String.eqb_neq in Hne;
         rewrite Hne, String.eqb_refl; cbn;
         destruct (Z.eqb_spec d DIRECTION_RIGHT);
         first [reflexivity | contradiction] | ]);
      repeat (split; [reflexivity | ]);
      split; intros Hdir; first [contradiction | repeat split].
  - eexists. split; [reflexivity | ].
    split.
    { intros Hl Hr Hu. apply String.eqb_neq in Hl, Hr, Hu.
      methods. cbn. rewrite Hl, Hr, Hu, String.eqb_refl. reflexivity. }
    repeat (split; [reflexivity | ]). reflexivity.
Qed.

(** ** Collisions *)

Lemma reached_by_snoc cs c s s' fired :
  reached_by cs s -> call c s = Returns tt s' fired ->
  reached_by (cs ++ [c]) s'.
Proof.
  intros (x0 & y0 & now & fired0 & Hrun) Hcall.
  exists x0, y0, now, (fired0 ++ fired).
  unfold bindM in *. rewrite constructor_returns in *.
  rewrite calls_snoc. unfold bindM.
  destruct (calls cs _) as [ | [] s1 fired1]; [discriminate | ].
  inversion Hrun; subst. rewrite Hcall. reflexivity.
Qed.

Lemma reachable_without_die_update obstacles gameTime s s' fired :
  reachable_without_die s ->
  update obstacles gameTime s = Returns tt s' fired ->
  reachable_without_die s'.
Proof.
  intros (cs & Hcs & Hreach) Hupd.
  exists (cs ++ [CallUpdate obstacles gameTime]). split.
  - rewrite forallb_app, Hcs. reflexivity.
  - eapply reached_by_snoc; [exact Hreach | exact Hupd].
Qed.

(** Symbolic execution of a frame up to the collision found: case analysis
    on the [switch] of [move], then the moved skier, its bounds and the
    first intersecting obstacle are put in place of their names. *)
Ltac collide Hmove Hbounds Hfind :=
  methods; cbn in Hmove; cbn;
  match type of Hmove with
  | context [?d =? DIRECTION_LEFT_DOWN] =>
      destruct (d =? DIRECTION_LEFT_DOWN);
      [ | destruct (d =? DIRECTION_DOWN);
          [ | destruct (d =? DIRECTION_RIGHT_DOWN)]]
  end;
  cbn in Hmove; inversion Hmove; subst; clear Hmove;
  cbn in Hbounds; inversion Hbounds; subst; clear Hbounds;
  cbn in Hfind; cbn; rewrite Hfind; cbn.

(** A jumping skier that runs into an obstacle it cannot jump over crashes;
    the animation it was playing stays where it was. *)
Lemma update_jumping_hits_unjumpable s obstacles gameTime s1 bounds hit :
  state s = STATE_JUMPING ->
  move s = Returns tt s1 [] ->
  getBounds s1 = Returns bounds s1 [] ->
  List.find (fun obstacle =>
               intersectTwoRects bounds (Obstacle.getBounds obstacle))
            obstacles = Some hit ->
  Obstacle.imageName hit ∉ JUMPABLE_OBSTACLES ->
  exists s',
    update obstacles gameTime s = Returns tt s' [] /\
    state s' = STATE_CRASHED /\ speed s' = 0%Q /\
    imageName s' = Some IMAGE_NAMES.(SKIER_CRASH) /\
    curAnimation s' = curAnimation s /\
    curAnimationFrame s' = curAnimationFrame s.
Proof.
  destruct s as [x0 y0 img st d v an cur fr ft].
  intros Hst Hmove Hbounds Hfind Hhard. cbn in Hst. subst st.
  collide Hmove Hbounds Hfind;
    rewrite (bool_decide_eq_false_2 _ Hhard); cbn;
    eexists; repeat split.
Qed.

(** The half of the animation invariant that holds: a reachable jumping
    skier has a current animation. *)
Lemma jumping_implies_animation s :
  reachable s -> state s = STATE_JUMPING -> curAnimation s <> None.
Proof.
  intros Hreach Hst.
  destruct (reachable_jumping_animated s Hreach) as [_ Hjump].
  destruct (Hjump Hst) as [Hcur _]. rewrite Hcur. discriminate.
Qed.

(** C2, the other half: from a jumping skier reachable by [update] and
    [handleInput] alone, a frame in which the first obstacle hit is not
    jumpable ends crashed with the jump animation still the current
    animation, so "jumping iff a current animation" fails in a state that
    [update] and [handleInput] reach. *)
Theorem crash_mid_jump_keeps_animation s obstacles gameTime s1 bounds hit :
  reachable_without_die s ->
  state s = STATE_JUMPING ->
  move s = Returns tt s1 [] ->
  getBounds s1 = Returns bounds s1 [] ->
  List.find (fun obstacle =>
               intersectTwoRects bounds (Obstacle.getBounds obstacle))
            obstacles = Some hit ->
  Obstacle.imageName hit ∉ JUMPABLE_OBSTACLES ->
  exists s',
    update obstacles gameTime s = Returns tt s' [] /\
    reachable_without_die s' /\
    state s' = STATE_CRASHED /\
    curAnimation s' = Some jumpAnimation /\
    ~ (state s' = STATE_JUMPING <-> curAnimation s' <> None).
Proof.
  intros Hreach Hst Hmove Hbounds Hfind Hhard.
  destruct (update_jumping_hits_unjumpable s obstacles gameTime s1 bounds hit
              Hst Hmove Hbounds Hfind Hhard)
    as (s' & Hupd & Hst' & _ & _ & Hcur & _).
  destruct (reachable_jumping_animated s
              (reachable_without_die_reachable s Hreach)) as [_ Hjump].
  destruct (Hjump Hst) as [Hplaying _].
  exists s'. split; [exact Hupd | ]. split.
  { eapply reachable_without_die_update; [exact Hreach | exact Hupd]. }
  split; [exact Hst' | ]. split; [congruence | ].
  intros [_ Hback].
  assert (Hj : state s' = STATE_JUMPING) by (apply Hback; congruence).
  congruence.
Qed.

(** C3, as the code has it: in a frame of a reachable skier in which
    [hit] is the first obstacle that intersects the skier's bounds,
    - a jumping skier over a jumpable obstacle passes the collision check
      untouched and keeps its speed; after the frame it is still jumping,
      unless this frame's animation step plays past the last image (the
      frame time has elapsed and the cursor is on the fifth image): then it
      is skiing again;
    - a skiing skier on an obstacle that does not start a jump is crashed,
      with speed 0 and the crash sprite;
    - a skiing skier on an obstacle that starts a jump is jumping, with the
      jump animation as its current animation. *)
Theorem collision_policy s obstacles gameTime s1 bounds hit :
  reachable s ->
  move s = Returns tt s1 [] ->
  getBounds s1 = Returns bounds s1 [] ->
  List.find (fun obstacle =>
               intersectTwoRects bounds (Obstacle.getBounds obstacle))
            obstacles = Some hit ->
  exists s' fired,
    update obstacles gameTime s = Returns tt s' fired /\
    (state s = STATE_JUMPING ->
     Obstacle.imageName hit ∈ JUMPABLE_OBSTACLES ->
     checkIfHitObstacle obstacles s1 = Returns tt s1 [] /\
     speed s' = speed s /\
     state s' =
       if (gameTime - curAnimationFrameTime s >? ANIMATION_FRAME_SPEED_MS)
          && (curAnimationFrame s =? 4)%nat
       then STATE_SKIING else STATE_JUMPING) /\
    (state s = STATE_SKIING ->
     Obstacle.imageName hit ∉ JUMP_INITIATING_OBSTACLES ->
     state s' = STATE_CRASHED /\ speed s' = 0%Q /\
     imageName s' = Some IMAGE_NAMES.(SKIER_CRASH)) /\
    (state s = STATE_SKIING ->
     Obstacle.imageName hit ∈ JUMP_INITIATING_OBSTACLES ->
     state s' = STATE_JUMPING /\ curAnimation s' = Some jumpAnimation).
Proof.
  intros Hreach Hmove Hbounds Hfind.
  apply reachable_jumping_animated in Hreach. destruct Hreach as [Han Hjump].
  destruct s as [x0 y0 img st d v an cur fr ft]. cbn in Han, Hjump.
  destruct st.
  - (* skiing *)
    clear Hjump.
    collide Hmove Hbounds Hfind;
      repeat (cbn; rewrite ?Han; try innermost_case);
      eexists _, _;
      (split;
       [ reflexivity
       | split;
         [ intros Hst; discriminate Hst
         | split; intros _ Hin; first [contradiction | repeat split] ] ]).
  - (* jumping *)
    destruct Hjump as [-> Hfr]; [reflexivity | ].
    destruct fr as [ | [ | [ | [ | [ | fr]]]]]; [ | | | | | lia]; clear Hfr;
      unfold jumpAnimation, IMAGES_JUMPING in *;
      collide Hmove Hbounds Hfind;
      repeat (cbn; try innermost_case);
      eexists _, _;
      (split;
       [ reflexivity
       | split;
         [ intros _ Hin; first [contradiction | repeat split]
         | split; intros Hst; discriminate Hst ] ]).
  - (* crashed *)
    destruct (update_returns obstacles gameTime
                {| x := x0; y := y0; imageName := img; state := STATE_CRASHED;
                   direction := d; speed := v; animations := an;
                   curAnimation := cur; curAnimationFrame := fr;
                   curAnimationFrameTime := ft |}) as (s' & fired & E).
    exists s', fired. split; [exact E | ].
    split; [ | split]; intros Hst; discriminate Hst.
  - (* dead *)
    destruct (update_returns obstacles gameTime
                {| x := x0; y := y0; imageName := img; state := STATE_DEAD;
                   direction := d; speed := v; animations := an;
                   curAnimation := cur; curAnimationFrame := fr;
                   curAnimationFrameTime := ft |}) as (s' & fired & E).
    exists s', fired. split; [exact E | ].
    split; [ | split]; intros Hst; discriminate Hst.
Qed.

(** ** Animation *)

(** C4: a jumping skier playing the five-image, non-looping jump animation
    from cursor 0, advanced in five consecutive frames each later than the
    one before by more than [ANIMATION_FRAME_SPEED_MS].  The first four
    advances apply no callback and leave the skier jumping with the
    animation current (cursor 4); the fifth applies the completion callback,
    once, clears the current animation and puts the state back to skiing.
    If the skier is put in the crashed state after any [k <= 4] of the first
    four advances, the fifth advance still applies the callback once and
    clears the animation, and the state stays crashed. *)
Theorem five_advances_finish_the_jump s t1 t2 t3 t4 t5 :
  state s = STATE_JUMPING ->
  curAnimation s = Some jumpAnimation ->
  curAnimationFrame s = 0%nat ->
  ANIMATION_FRAME_SPEED_MS < t1 - curAnimationFrameTime s ->
  ANIMATION_FRAME_SPEED_MS < t2 - t1 ->
  ANIMATION_FRAME_SPEED_MS < t3 - t2 ->
  ANIMATION_FRAME_SPEED_MS < t4 - t3 ->
  ANIMATION_FRAME_SPEED_MS < t5 - t4 ->
  (exists s4 s5,
      animates [t1; t2; t3; t4] s = Returns tt s4 [] /\
      state s4 = STATE_JUMPING /\
      curAnimation s4 = Some jumpAnimation /\
      curAnimationFrame s4 = 4%nat /\
      animate t5 s4 = Returns tt s5 [finishJumping_bound] /\
      animates [t1; t2; t3; t4; t5] s = Returns tt s5 [finishJumping_bound] /\
      state s5 = STATE_SKIING /\
      curAnimation s5 = None) /\
  (forall k, (k <= 4)%nat ->
     exists s4 s5,
       (animates (firstn k [t1; t2; t3; t4]) ;; crash ;;
        animates (skipn k [t1; t2; t3; t4])) s = Returns tt s4 [] /\
       state s4 = STATE_CRASHED /\
       curAnimation s4 = Some jumpAnimation /\
       animate t5 s4 = Returns tt s5 [finishJumping_bound] /\
       state s5 = STATE_CRASHED /\
       curAnimation s5 = None).
Proof.
  destruct s as [x0 y0 img st d v an cur fr ft]. cbn.
  intros -> -> -> H1 H2 H3 H4 H5.
  apply Z.gtb_lt in H1, H2, H3, H4, H5.
  split.
  - cbv beta iota zeta delta [animates]. methods. cbn.
    rewrite H1. cbn. rewrite H2. cbn. rewrite H3. cbn.
    rewrite H4. cbn. rewrite H5. cbn.
    eexists _, _. repeat (split; [reflexivity | ]).
    cbn. rewrite H5. cbn. repeat (split; [reflexivity | ]). reflexivity.
  - intros k Hk.
    destruct k as [ | [ | [ | [ | [ | k]]]]]; [ | | | | | lia];
      cbv beta iota zeta delta [animates firstn skipn]; methods; cbn;
      rewrite ?H1; cbn; rewrite ?H2; cbn; rewrite ?H3; cbn;
      rewrite ?H4; cbn;
      eexists _, _; repeat (split; [reflexivity | ]);
      cbn; rewrite H5; cbn; repeat (split; [reflexivity | ]); reflexivity.
Qed.

(** ** Further invariants of the reachable states *)

(** Every direction in range has its sprite in [DIRECTION_IMAGES]. *)
Lemma direction_image_defined d :
  DIRECTION_LEFT <= d <= DIRECTION_RIGHT ->
  DIRECTION_IMAGES !! d <> None.
Proof.
  unfold DIRECTION_LEFT, DIRECTION_RIGHT. intros Hd.
  assert (Hcases : d = 0 \/ d = 1 \/ d = 2 \/ d = 3 \/ d = 4) by lia.
  destruct Hcases as [-> | [-> | [-> | [-> | ->]]]]; vm_compute; discriminate.
Qed.

(** Induction over the calls of a run, for invariants that lean on
    [jumping_is_animated]. *)
Lemma reachable_ind_with_animation (P : Skier -> Prop) :
  (forall x0 y0 now s fired,
      constructor (fields x0 y0 now) = Returns tt s fired -> P s) ->
  (forall c s s' fired,
      jumping_is_animated s -> P s ->
      call c s = Returns tt s' fired -> P s') ->
  forall s, reachable s -> P s.
Proof.
  intros Hinit Hstep s [cs Hcs].
  enough (H : jumping_is_animated s /\ P s) by apply H.
  apply (reached_by_ind (fun s => jumping_is_animated s /\ P s))
    with (cs := cs); [ | | exact Hcs].
  - intros x0 y0 now s0 fired0 H0. split.
    + rewrite constructor_returns in H0. inversion H0; subst.
      split; [reflexivity | intros H; discriminate H].
    + eapply Hinit. exact H0.
  - intros c s1 s2 fired1 [Ha HP] Hcall. split.
    + eapply call_keeps_jumping_animated; eassumption.
    + eapply Hstep; eassumption.
Qed.

Lemma call_keeps_drawable c s s' fired :
  jumping_is_animated s -> drawable s ->
  call c s = Returns tt s' fired -> drawable s'.
Proof.
  unfold jumping_is_animated, drawable.
  destruct s as [x0 y0 img st d v an cur fr ft]. cbn.
  intros [Han Hjump] [Hd Himg].
  assert (Hl : DIRECTION_IMAGES !! DIRECTION_LEFT <> None)
    by (vm_compute; discriminate).
  assert (Hr : DIRECTION_IMAGES !! DIRECTION_RIGHT <> None)
    by (vm_compute; discriminate).
  assert (Hm : DIRECTION_IMAGES !! DIRECTION_DOWN <> None)
    by (vm_compute; discriminate).
  pose proof (direction_image_defined (d - 1)) as Hleft.
  pose proof (direction_image_defined (d + 1)) as Hright.
  destruct st;
    try (destruct Hjump as [-> Hfr]; [reflexivity | ]);
    try (destruct fr as [ | [ | [ | [ | [ | fr]]]]]; [ | | | | | lia]);
    destruct c as [obstacles gameTime | inputKey | ]; methods;
    unfold jumpAnimation, IMAGES_JUMPING in *;
    repeat (cbn; rewrite ?Han; try innermost_case); conclude;
    repeat match goal with
           | H : (_ =? _) = false |- _ => apply Z.eqb_neq in H
           | H : (_ =? _) = true |- _ => apply Z.eqb_eq in H
           end;
    unfold DIRECTION_LEFT, DIRECTION_LEFT_DOWN, DIRECTION_DOWN,
      DIRECTION_RIGHT_DOWN, DIRECTION_RIGHT in *;
    (split; [lia | ]);
    first [ assumption | discriminate | apply Hleft; lia | apply Hright; lia ].
Qed.

(** X1: in every reachable state the direction is one of the five
    directions ([DIRECTION_LEFT] to [DIRECTION_RIGHT]), [DIRECTION_IMAGES]
    has a sprite for it, and [imageName] is defined: no turn steps past
    either end, and no image lookup ever comes back undefined. *)
Theorem direction_and_image_always_defined s :
  reachable s ->
  DIRECTION_LEFT <= direction s <= DIRECTION_RIGHT /\
  DIRECTION_IMAGES !! direction s <> None /\
  imageName s <> None.
Proof.
  intros Hreach.
  assert (H : drawable s).
  { revert s Hreach. apply reachable_ind_with_animation.
    - intros x0 y0 now s0 fired0 H0.
      rewrite constructor_returns in H0. inversion H0; subst.
      split; [cbn; unfold DIRECTION_LEFT, DIRECTION_DOWN, DIRECTION_RIGHT; lia
             | discriminate].
    - intros c s1 s2 fired1. apply call_keeps_drawable. }
  destruct H as [Hd Himg].
  split; [exact Hd | split; [apply direction_image_defined, Hd | exact Himg]].
Qed.

Lemma call_keeps_full_speed c s s' fired :
  full_speed_when_up s -> call c s = Returns tt s' fired ->
  full_speed_when_up s'.
Proof.
  unfold full_speed_when_up.
  destruct s as [x0 y0 img st d v an cur fr ft].
  destruct c as [obstacles gameTime | inputKey | ]; methods;
    destruct st; run; conclude; intuition congruence.
Qed.

(** X2: in every reachable state a skier that is skiing or jumping has
    speed [STARTING_SPEED]; together with the speed 0 of the crashed and
    dead states, the speed is a function of the state. *)
Theorem moving_states_have_starting_speed s :
  reachable s ->
  state s = STATE_SKIING \/ state s = STATE_JUMPING ->
  speed s = STARTING_SPEED.
Proof.
  intros [cs Hcs]. change (full_speed_when_up s).
  apply (reached_by_ind full_speed_when_up) with (cs := cs);
    [ | | exact Hcs].
  - intros x0 y0 now s0 fired0 H0.
    rewrite constructor_returns in H0. inversion H0; subst.
    intros _. reflexivity.
  - intros c s1 s2 fired1. apply call_keeps_full_speed.
Qed.

Lemma call_keeps_animation_in_order c s s' fired :
  jumping_is_animated s -> animation_in_order s ->
  call c s = Returns tt s' fired -> animation_in_order s'.
Proof.
  unfold jumping_is_animated, animation_in_order.
  destruct s as [x0 y0 img st d v an cur fr ft]. cbn.
  intros [Han Hjump] (Htable & Hcur & Hfr5).
  destruct st;
    try (destruct Hjump as [-> Hfr]; [reflexivity | ]);
    destruct c as [obstacles gameTime | inputKey | ]; methods;
    unfold jumpAnimation, IMAGES_JUMPING in *;
    repeat (cbn; rewrite ?Han; try innermost_case); conclude;
    repeat match goal with
           | H : (_ <=? _)%nat = false |- _ => apply Nat.leb_gt in H
           end;
    (split; [first [assumption | reflexivity] | ]);
    (split; [first [assumption | left; reflexivity | right; reflexivity]
            | lia]).
Qed.

(** X3: in every reachable state the animation table is exactly the one
    [setupAnimations] built (the jump animation under the jumping state and
    nothing else), the current animation is either none or that jump
    animation, and the frame cursor is at most 5, one past the last jump
    image. *)
Theorem animation_table_is_fixed s :
  reachable s ->
  animations s = <[STATE_JUMPING := jumpAnimation]> ∅ /\
  (curAnimation s = None \/ curAnimation s = Some jumpAnimation) /\
  (curAnimationFrame s <= 5)%nat.
Proof.
  revert s. apply reachable_ind_with_animation.
  - intros x0 y0 now s0 fired0 H0.
    rewrite constructor_returns in H0. inversion H0; subst.
    split; [reflexivity | split; [left; reflexivity | cbn; lia]].
  - intros c s1 s2 fired1. apply call_keeps_animation_in_order.
Qed.

Lemma call_never_kills c s s' fired :
  is_die c = false -> state s <> STATE_DEAD ->
  call c s = Returns tt s' fired -> state s' <> STATE_DEAD.
Proof.
  destruct s as [x0 y0 img st d v an cur fr ft].
  destruct c as [obstacles gameTime | inputKey | ]; [ | | discriminate];
    intros _; methods; destruct st; run; conclude; congruence.
Qed.

(** X4: only [die()] kills.  No sequence of [update] and [handleInput]
    calls, whatever the obstacles, times and keys, ever puts a freshly
    constructed skier in the dead state. *)
Theorem only_die_kills s :
  reachable_without_die s -> state s <> STATE_DEAD.
Proof.
  intros (cs & Hcs & x0 & y0 & now & fired & Hrun).
  unfold bindM in Hrun. rewrite constructor_returns in Hrun.
  set (s0 := set_animations _ _) in Hrun.
  assert (H0 : state s0 <> STATE_DEAD) by discriminate.
  clearbody s0. revert s0 fired H0 Hrun Hcs.
  induction cs as [ | c cs IH]; intros s0 fired H0 Hrun Hcs.
  - cbn in Hrun. inversion Hrun; subst. exact H0.
  - cbn [forallb] in Hcs. apply andb_true_iff in Hcs as [Hc Hcs].
    apply negb_true_iff in Hc.
    cbn [calls] in Hrun. unfold bindM in Hrun.
    destruct (call c s0) as [ | [] s1 fired1] eqn:E1; [discriminate | ].
    destruct (calls cs s1) as [ | [] s2 fired2] eqn:E2; [discriminate | ].
    inversion Hrun; subst.
    apply (IH s1 ([] ++ fired2)).
    + eapply call_never_kills; eassumption.
    + rewrite E2. reflexivity.
    + exact Hcs.
Qed.

(** ** Errors, and states in which nothing happens *)

Lemma animate_returns gameTime s :
  exists s' fired, animate gameTime s = Returns tt s' fired.
Proof.
  destruct s as [x0 y0 img st d v an cur fr ft]. methods.
  destruct st; run; eauto.
Qed.

(** X5: the two animation steps that dereference [this.curAnimation]
    without a test, [nextAnimationFrame] and [finishAnimation], throw
    exactly when there is no current animation; [animate], which tests the
    reference first, never throws, and neither does any sequence of
    [update], [handleInput] and [die] calls, from any field values. *)
Theorem only_unguarded_frame_steps_throw s gameTime :
  (nextAnimationFrame gameTime s = Throws <-> curAnimation s = None) /\
  (finishAnimation s = Throws <-> curAnimation s = None) /\
  animate gameTime s <> Throws /\
  (forall cs, calls cs s <> Throws).
Proof.
  split; [ | split; [ | split]].
  - destruct s as [x0 y0 img st d v an cur fr ft]. methods. cbn.
    destruct cur as [a | ]; [ | split; reflexivity].
    split; [ | discriminate].
    destruct st; run; discriminate.
  - destruct s as [x0 y0 img st d v an cur fr ft]. methods. cbn.
    destruct cur as [a | ]; [ | split; reflexivity].
    split; [ | discriminate].
    destruct st; run; discriminate.
  - destruct (animate_returns gameTime s) as (s' & fired & E).
    rewrite E. discriminate.
  - intros cs. destruct (calls_returns cs s) as (s' & fired & E).
    rewrite E. discriminate.
Qed.

(** X6: a crashed skier stays exactly as it is until a side key arrives:
    [update] moves nothing, checks no collision and advances no animation,
    [turnUp], [turnDown] and [jump] do nothing, and [handleInput] on any
    key other than the left and right arrows leaves every field as it
    was. *)
Theorem crashed_skier_waits_for_a_side_key s :
  state s = STATE_CRASHED ->
  (forall obstacles gameTime, update obstacles gameTime s = Returns tt s []) /\
  turnUp s = Returns tt s [] /\
  turnDown s = Returns tt s [] /\
  jump s = Returns tt s [] /\
  (forall inputKey,
      inputKey <> KEYS.(LEFT) -> inputKey <> KEYS.(RIGHT) ->
      exists handled, handleInput inputKey s = Returns handled s []).
Proof.
  destruct s as [x0 y0 img st d v an cur fr ft]. cbn. intros ->.
  repeat (split; [reflexivity | ]).
  intros inputKey Hl Hr. apply String.eqb_neq in Hl, Hr.
  methods. cbn. rewrite Hl, Hr.
  destruct (inputKey =? UP KEYS)%string; [eexists; reflexivity | ].
  destruct (inputKey =? DOWN KEYS)%string; [eexists; reflexivity | ].
  destruct (inputKey =? SPACE KEYS)%string; eexists; reflexivity.
Qed.

(** X7: [jump()] is idempotent from every state, and on a skier that is
    already jumping it changes nothing: the animation is not restarted and
    the frame cursor keeps its place. *)
Theorem jump_is_idempotent s :
  (jump ;; jump) s = jump s /\
  (state s = STATE_JUMPING -> jump s = Returns tt s []).
Proof.
  destruct s as [x0 y0 img st d v an cur fr ft]. split.
  - methods. destruct st; cbn; try reflexivity;
      destruct (an !! STATE_JUMPING) as [a | ]; reflexivity.
  - cbn. intros ->. reflexivity.
Qed.

(** ** Which obstacle counts *)

Lemma find_first_hit {A : Type} (f : A -> bool) before hit after :
  (forall o, In o before -> f o = false) -> f hit = true ->
  List.find f (before ++ hit :: after) = Some hit.
Proof.
  intros Hbefore Hhit. induction before as [ | o before IH]; cbn.
  - rewrite Hhit. reflexivity.
  - rewrite (Hbefore o (or_introl eq_refl)).
    apply IH. intros o' Ho'. apply Hbefore. right. exact Ho'.
Qed.

Lemma find_no_hit {A : Type} (f : A -> bool) l :
  (forall o, In o l -> f o = false) -> List.find f l = None.
Proof.
  intros Hl. destruct (List.find f l) as [o | ] eqn:E; [ | reflexivity].
  apply find_some in E as [Hin Ho]. rewrite (Hl o Hin) in Ho. discriminate.
Qed.

(** The frame as a function of the collision found. *)
Lemma update_depends_on_find obstacles obstacles' gameTime s s1 bounds :
  move s = Returns tt s1 [] ->
  getBounds s1 = Returns bounds s1 [] ->
  List.find (fun obstacle =>
               intersectTwoRects bounds (Obstacle.getBounds obstacle))
            obstacles =
  List.find (fun obstacle =>
               intersectTwoRects bounds (Obstacle.getBounds obstacle))
            obstacles' ->
  update obstacles gameTime s = update obstacles' gameTime s.
Proof.
  intros Hmove Hbounds Hfind.
  assert (Hcheck : checkIfHitObstacle obstacles s1 =
                   checkIfHitObstacle obstacles' s1).
  { unfold checkIfHitObstacle, bindM. rewrite Hbounds. cbv zeta.
    rewrite Hfind. reflexivity. }
  destruct s as [x0 y0 img st d v an cur fr ft].
  cbv beta iota delta [update isJumping isSkiing bindM get return_value
                       return_ state State_eqb].
  destruct st; cbv beta iota delta [orb]; try reflexivity;
    rewrite Hmove, Hcheck; reflexivity.
Qed.

(** X8: only the first obstacle that intersects the skier's bounds counts.
    With [before] a list of obstacles none of which intersects the moved
    skier's bounds and [hit] one that does, a frame over
    [before ++ hit :: after] is the frame over [hit] alone, whatever comes
    after it in the list. *)
Theorem first_hit_decides s s1 bounds before hit after gameTime :
  move s = Returns tt s1 [] ->
  getBounds s1 = Returns bounds s1 [] ->
  (forall o, In o before ->
             intersectTwoRects bounds (Obstacle.getBounds o) = false) ->
  intersectTwoRects bounds (Obstacle.getBounds hit) = true ->
  update (before ++ hit :: after) gameTime s = update [hit] gameTime s.
Proof.
  intros Hmove Hbounds Hbefore Hhit.
  apply (update_depends_on_find _ _ _ _ s1 bounds Hmove Hbounds).
  rewrite (find_first_hit _ before hit after Hbefore Hhit).
  cbn. rewrite Hhit. reflexivity.
Qed.

(** X9: obstacles that do not intersect the moved skier's bounds are as
    good as absent: a frame over a list of such obstacles is the frame over
    the empty list. *)
Theorem obstacles_out_of_reach_are_ignored s s1 bounds obstacles gameTime :
  move s = Returns tt s1 [] ->
  getBounds s1 = Returns bounds s1 [] ->
  (forall o, In o obstacles ->
             intersectTwoRects bounds (Obstacle.getBounds o) = false) ->
  update obstacles gameTime s = update [] gameTime s.
Proof.
  intros Hmove Hbounds Hclear.
  apply (update_depends_on_find _ _ _ _ s1 bounds Hmove Hbounds).
  rewrite (find_no_hit _ obstacles Hclear). reflexivity.
Qed.

(** Symbolic execution of [move] and [getBounds] alone. *)
Ltac moved Hmove Hbounds :=
  methods; cbn in Hmove; cbn;
  match type of Hmove with
  | context [?d =? DIRECTION_LEFT_DOWN] =>
      destruct (d =? DIRECTION_LEFT_DOWN);
      [ | destruct (d =? DIRECTION_DOWN);
          [ | destruct (d =? DIRECTION_RIGHT_DOWN)]]
  end;
  cbn in Hmove; inversion Hmove; subst; clear Hmove;
  cbn in Hbounds; inversion Hbounds; subst; clear Hbounds.

(** X10: no crash without a hit.  If a frame takes a skier that was not
    crashed to the crashed state, then some obstacle of the list intersects
    the moved skier's bounds, and the first such obstacle is of a type a
    skiing skier cannot start a jump on, or a jumping skier cannot jump
    over. *)
Theorem no_crash_without_a_hit s obstacles gameTime s' fired s1 bounds :
  state s <> STATE_CRASHED ->
  move s = Returns tt s1 [] ->
  getBounds s1 = Returns bounds s1 [] ->
  update obstacles gameTime s = Returns tt s' fired ->
  state s' = STATE_CRASHED ->
  exists hit,
    List.find (fun obstacle =>
                 intersectTwoRects bounds (Obstacle.getBounds obstacle))
              obstacles = Some hit /\
    In hit obstacles /\
    intersectTwoRects bounds (Obstacle.getBounds hit) = true /\
    (state s = STATE_SKIING /\
     Obstacle.imageName hit ∉ JUMP_INITIATING_OBSTACLES \/
     state s = STATE_JUMPING /\
     Obstacle.imageName hit ∉ JUMPABLE_OBSTACLES).
Proof.
  destruct s as [x0 y0 img st d v an cur fr ft].
  intros Hst Hmove Hbounds Hupd Hst'. cbn in Hst.
  revert Hupd Hst'.
  destruct st; try congruence; try (cbn; intros Hupd; inversion Hupd; subst;
                                    cbn; discriminate);
    moved Hmove Hbounds; run; conclude; try discriminate;
    match goal with
    | H : List.find _ _ = Some ?o |- _ =>
        exists o; split; [reflexivity | ];
        apply find_some in H as [Hin Hhit];
        split; [exact Hin | split; [exact Hhit | ]]
    end;
    first [ left; split; [reflexivity | assumption]
          | right; split; [reflexivity | assumption] ].
Qed.

Lemma jump_initiating_is_jumpable :
  JUMP_INITIATING_OBSTACLES ⊆ JUMPABLE_OBSTACLES.
Proof. unfold JUMP_INITIATING_OBSTACLES, JUMPABLE_OBSTACLES. set_solver. Qed.

(** X11: a ramp never crashes the skier.  Every jump-initiating type is
    also jumpable, so when the first obstacle hit is of a jump-initiating
    type, a skiing skier starts a jump and a jumping skier passes over it:
    after the frame the skier is not crashed. *)
Theorem ramp_never_crashes s obstacles gameTime s' fired s1 bounds hit :
  state s = STATE_SKIING \/ state s = STATE_JUMPING ->
  move s = Returns tt s1 [] ->
  getBounds s1 = Returns bounds s1 [] ->
  List.find (fun obstacle =>
               intersectTwoRects bounds (Obstacle.getBounds obstacle))
            obstacles = Some hit ->
  Obstacle.imageName hit ∈ JUMP_INITIATING_OBSTACLES ->
  update obstacles gameTime s = Returns tt s' fired ->
  JUMP_INITIATING_OBSTACLES ⊆ JUMPABLE_OBSTACLES /\
  Obstacle.imageName hit ∈ JUMPABLE_OBSTACLES /\
  state s' <> STATE_CRASHED /\
  state s' <> STATE_DEAD.
Proof.
  destruct s as [x0 y0 img st d v an cur fr ft].
  intros Hst Hmove Hbounds Hfind Hramp Hupd. cbn in Hst.
  pose proof jump_initiating_is_jumpable as Hsub.
  pose proof (Hsub _ Hramp) as Hover.
  split; [exact Hsub | split; [exact Hover | ]].
  revert Hupd.
  destruct st;
    [ | | destruct Hst as [H | H]; discriminate H
        | destruct Hst as [H | H]; discriminate H ];
    collide Hmove Hbounds Hfind; run; conclude;
    first [contradiction | split; discriminate].
Qed.

(** ** Animation steps *)

(** X12: the looping branch of [nextAnimationFrame].  With a looping
    animation current and the cursor on one of its images, a step fires no
    callback, keeps the animation, moves the cursor to the next image and
    from the last one back to the first (cursor + 1 modulo the number of
    images), shows the image under the new cursor, and stamps the frame
    time. *)
Theorem looping_animation_wraps s a gameTime :
  curAnimation s = Some a ->
  getLooping a = true ->
  (curAnimationFrame s < length (getImages a))%nat ->
  exists s',
    nextAnimationFrame gameTime s = Returns tt s' [] /\
    curAnimation s' = Some a /\
    curAnimationFrame s' =
      (S (curAnimationFrame s) mod length (getImages a))%nat /\
    (curAnimationFrame s' < length (getImages a))%nat /\
    imageName s' = getImages a !! curAnimationFrame s' /\
    imageName s' <> None /\
    curAnimationFrameTime s' = gameTime /\
    state s' = state s.
Proof.
  destruct s as [x0 y0 img st d v an cur fr ft].
  destruct a as [imgs looping cb]. cbn.
  intros -> -> Hfr. methods. cbn.
  destruct (length imgs <=? S fr)%nat eqn:Hend; cbn;
    eexists; (split; [reflexivity | ]); cbn;
    (split; [reflexivity | ]).
  - apply Nat.leb_le in Hend.
    assert (Hlast : S fr = length imgs) by lia.
    rewrite Hlast, Nat.Div0.mod_same.
    split; [reflexivity | split; [lia | split; [reflexivity | ]]].
    split; [ | split; reflexivity].
    intros Hnone. apply lookup_ge_None in Hnone. lia.
  - apply Nat.leb_gt in Hend.
    rewrite (Nat.mod_small _ _ Hend).
    split; [reflexivity | split; [exact Hend | split; [reflexivity | ]]].
    split; [ | split; reflexivity].
    intros Hnone. apply lookup_ge_None in Hnone. lia.
Qed.

(** X13: at most one animation step per game time.  When the frame
    duration is not negative, calling [animate] a second time with the same
    [gameTime] changes nothing and fires nothing: the first call stamped the
    frame time, or found nothing to do. *)
Theorem animate_once_per_time s gameTime :
  0 <= ANIMATION_FRAME_SPEED_MS ->
  (animate gameTime ;; animate gameTime) s = animate gameTime s.
Proof.
  intros Hms.
  assert (Hno : (gameTime - gameTime >? ANIMATION_FRAME_SPEED_MS) = false).
  { rewrite Z.sub_diag, Z.gtb_ltb. apply Z.ltb_ge. exact Hms. }
  destruct s as [x0 y0 img st d v an cur fr ft]. methods.
  destruct st; repeat (cbn; rewrite ?Hno; cbn; try innermost_case);
    first [reflexivity | discriminate].
Qed.

(** X14: the end of a non-looping animation leaves the image alone.  The
    step that plays past the last image of a jumping skier's animation
    fires the callback once, clears the current animation and puts the state
    to skiing, but [imageName] stays what it was (the direction sprite is
    not put back), as do position, direction and speed. *)
Theorem finished_jump_keeps_its_image s a gameTime :
  state s = STATE_JUMPING ->
  curAnimation s = Some a ->
  getLooping a = false ->
  (length (getImages a) <= S (curAnimationFrame s))%nat ->
  ANIMATION_FRAME_SPEED_MS < gameTime - curAnimationFrameTime s ->
  exists s',
    animate gameTime s = Returns tt s' [getCallback a] /\
    state s' = STATE_SKIING /\
    curAnimation s' = None /\
    imageName s' = imageName s /\
    direction s' = direction s /\
    x s' = x s /\ y s' = y s /\ speed s' = speed s.
Proof.
  destruct s as [x0 y0 img st d v an cur fr ft].
  destruct a as [imgs looping cb]. cbn.
  intros -> -> -> Hend Hlate.
  apply Nat.leb_le in Hend. apply Z.gtb_lt in Hlate.
  methods. cbn. rewrite Hlate. cbn. rewrite Hend. cbn.
  destruct cb. cbn. eexists. repeat (split; [reflexivity | ]). reflexivity.
Qed.

(** ** Turning and moving *)

(** X15: turning one step and back.  For a skier that is not crashed and
    faces one of the five directions: unless it faces full-left, a left turn
    followed by a right turn brings back the direction it had, with the
    sprite of that direction as image and the position untouched; unless it
    faces full-right, so does a right turn followed by a left turn.  From
    full-left, left then right ends one step to the right of where it began,
    facing left-down, one [STARTING_SPEED] further left. *)
Theorem turn_one_step_and_back s :
  state s <> STATE_CRASHED ->
  DIRECTION_LEFT <= direction s <= DIRECTION_RIGHT ->
  (direction s <> DIRECTION_LEFT ->
   exists s',
     (turnLeft ;; turnRight) s = Returns tt s' [] /\
     direction s' = direction s /\
     imageName s' = DIRECTION_IMAGES !! direction s /\
     x s' = x s /\ y s' = y s /\ state s' = state s) /\
  (direction s <> DIRECTION_RIGHT ->
   exists s',
     (turnRight ;; turnLeft) s = Returns tt s' [] /\
     direction s' = direction s /\
     imageName s' = DIRECTION_IMAGES !! direction s /\
     x s' = x s /\ y s' = y s /\ state s' = state s) /\
  (direction s = DIRECTION_LEFT ->
   exists s',
     (turnLeft ;; turnRight) s = Returns tt s' [] /\
     direction s' = DIRECTION_LEFT_DOWN /\
     x s' = (x s - STARTING_SPEED)%Q /\ state s' = state s).
Proof.
  destruct s as [x0 y0 img st d v an cur fr ft]. cbn.
  unfold DIRECTION_LEFT, DIRECTION_RIGHT, DIRECTION_LEFT_DOWN.
  intros Hst Hd.
  assert (Hcr : State_eqb st STATE_CRASHED = false)
    by (destruct st; try reflexivity; congruence).
  split; [ | split].
  - intros Hl.
    assert (H1 : (d =? 0) = false) by (apply Z.eqb_neq; exact Hl).
    assert (H2 : (d - 1 =? 4) = false) by (apply Z.eqb_neq; lia).
    methods. cbn. rewrite Hcr. cbn.
    unfold DIRECTION_LEFT, DIRECTION_RIGHT. rewrite H1. cbn.
    rewrite Hcr. cbn. rewrite H2. cbn.
    replace (d - 1 + 1) with d by lia.
    eexists. repeat (split; [reflexivity | ]). reflexivity.
  - intros Hr.
    assert (H1 : (d =? 4) = false) by (apply Z.eqb_neq; exact Hr).
    assert (H2 : (d + 1 =? 0) = false) by (apply Z.eqb_neq; lia).
    methods. cbn. rewrite Hcr. cbn.
    unfold DIRECTION_LEFT, DIRECTION_RIGHT. rewrite H1. cbn.
    rewrite Hcr. cbn. rewrite H2. cbn.
    replace (d + 1 - 1) with d by lia.
    eexists. repeat (split; [reflexivity | ]). reflexivity.
  - intros ->. methods. cbn. rewrite Hcr. cbn. rewrite Hcr. cbn.
    eexists. repeat (split; [reflexivity | ]). reflexivity.
Qed.

Lemma reachable_speed s :
  reachable s -> speed s = 0%Q \/ speed s = STARTING_SPEED.
Proof.
  intros [cs Hcs].
  assert (H : stopped_when_down s /\ full_speed_when_up s).
  { apply (reached_by_ind
             (fun s => stopped_when_down s /\ full_speed_when_up s))
      with (cs := cs); [ | | exact Hcs].
    - intros x0 y0 now s0 fired0 H0.
      rewrite constructor_returns in H0. inversion H0; subst.
      split; [intros [H | H]; discriminate H | intros _; reflexivity].
    - intros c s1 s2 fired1 [Hs Hf] Hcall. split.
      + eapply call_keeps_stopped; eassumption.
      + eapply call_keeps_full_speed; eassumption. }
  destruct H as [Hdown Hup].
  unfold stopped_when_down, full_speed_when_up in *.
  destruct (state s); auto.
Qed.

Lemma step_down_is_down (y0 a : Q) : (0 <= a)%Q -> (y0 <= y0 + a)%Q.
Proof.
  intros Ha. apply Qle_trans with (y0 + 0)%Q.
  - rewrite Qplus_0_r. apply Qle_refl.
  - apply Qplus_le_r. exact Ha.
Qed.

(** X16: a frame never moves the skier uphill.  With a positive diagonal
    reducer, [update] on a reachable skier leaves [y] where it was or
    further down, never up; and a skier facing full-left or full-right is
    not moved by the frame at all. *)
Theorem update_never_moves_up s obstacles gameTime s' fired :
  reachable s ->
  (0 < DIAGONAL_SPEED_REDUCER)%Q ->
  update obstacles gameTime s = Returns tt s' fired ->
  (y s <= y s')%Q /\
  (direction s = DIRECTION_LEFT \/ direction s = DIRECTION_RIGHT ->
   x s' = x s /\ y s' = y s).
Proof.
  intros Hreach Hpos Hupd.
  apply reachable_speed in Hreach.
  destruct s as [x0 y0 img st d v an cur fr ft]. cbn in Hreach |- *.
  assert (Hv : (0 <= v)%Q)
    by (destruct Hreach as [-> | ->]; unfold STARTING_SPEED; discriminate).
  assert (Hvd : (0 <= v / DIAGONAL_SPEED_REDUCER)%Q).
  { apply Qle_shift_div_l; [exact Hpos | ].
    rewrite Qmult_0_l. exact Hv. }
  pose proof (Qle_refl y0) as H0.
  pose proof (step_down_is_down y0 v Hv) as H1.
  pose proof (step_down_is_down y0 _ Hvd) as H2.
  clear Hreach Hpos Hv Hvd.
  revert Hupd. methods.
  destruct st; run; conclude;
    repeat match goal with
           | H : (_ =? _) = true |- _ => apply Z.eqb_eq in H
           end;
    (split; [assumption | ]);
    unfold DIRECTION_LEFT, DIRECTION_LEFT_DOWN, DIRECTION_DOWN,
      DIRECTION_RIGHT_DOWN, DIRECTION_RIGHT in *;
    intros Hdir; first [lia | split; reflexivity].
Qed.

(** X17: keys never crash the skier and never fire a callback.  After
    any [handleInput] call no callback has been applied and the frame time
    is what it was; if the skier is crashed afterwards, it was crashed
    before and the call changed no field; and the speed is what it was
    unless the call recovered a crashed skier. *)
Theorem keys_never_crash s inputKey handled s' fired :
  handleInput inputKey s = Returns handled s' fired ->
  fired = [] /\
  curAnimationFrameTime s' = curAnimationFrameTime s /\
  (state s' = STATE_CRASHED -> s' = s) /\
  (speed s' = speed s \/ state s = STATE_CRASHED).
Proof.
  destruct s as [x0 y0 img st d v an cur fr ft].
  methods. destruct st; run; conclude;
    (split; [reflexivity | ]); (split; [reflexivity | ]);
    (split; [intros Hst; first [discriminate Hst | reflexivity] | ]);
    first [left; reflexivity | right; reflexivity].
Qed.

End Skier.

(** ** The theorems at work on the sample configuration

    A session with the diagonal reducer 1.4142, frames of 250 ms, the
    strict overlap test and 20 by 40 sprites; the skier is constructed at
    (100, 100) at time 0. *)

Local Abbreviation sample_reducer := (14142 # 10000)%Q.
Local Abbreviation sample_frame_ms := 250%Z.

Local Abbreviation sample_update :=
  (update sample_names sample_reducer sample_frame_ms
     sample_intersectTwoRects sample_getImage).

Local Abbreviation sample_handleInput :=
  (handleInput sample_names sample_keys).

Local Abbreviation sample_reachable :=
  (reachable sample_names sample_keys sample_reducer sample_frame_ms
     sample_intersectTwoRects sample_getImage).

Local Abbreviation sample_reachable_without_die :=
  (reachable_without_die sample_names sample_keys sample_reducer
     sample_frame_ms sample_intersectTwoRects sample_getImage).

(** The skier as the constructor leaves it. *)
Local Abbreviation sample_start :=
  (set_animations (<[STATE_JUMPING := jumpAnimation sample_names]> ∅)
     (fields sample_names 100 100 0)).

(** The skier after the jump key. *)
Local Abbreviation sample_jumping :=
  (set_imageName (Some "skierJump1")
     (set_curAnimation (Some (jumpAnimation sample_names))
        (set_state STATE_JUMPING sample_start))).

(** The skier after a first frame in which it ran into [sample_tree]. *)
Local Abbreviation sample_crashed :=
  (set_imageName (Some "skierCrash")
     (set_speed 0%Q (set_state STATE_CRASHED (set_y 101%Q sample_start)))).

(** The skier after construction and [die()]. *)
Local Abbreviation sample_dead :=
  (set_speed 0%Q (set_state STATE_DEAD sample_start)).

Lemma sample_start_reachable : sample_reachable_without_die sample_start.
Proof.
  exists []. split; [reflexivity | ].
  exists 100%Q, 100%Q, 0, []. vm_compute. reflexivity.
Qed.

Lemma sample_jumping_reachable : sample_reachable_without_die sample_jumping.
Proof.
  exists [CallHandleInput " "]. split; [reflexivity | ].
  exists 100%Q, 100%Q, 0, []. vm_compute. reflexivity.
Qed.

Lemma sample_crashed_reachable : sample_reachable_without_die sample_crashed.
Proof.
  exists [CallUpdate [sample_tree] 10]. split; [reflexivity | ].
  exists 100%Q, 100%Q, 0, []. vm_compute. reflexivity.
Qed.

(** The jump key on the freshly constructed skier: the skier jumps, the key
    is reported unhandled. *)
Lemma jump_key_reported_unhandled_sample :
  exists s',
    jump sample_start = Returns tt s' [] /\
    sample_handleInput " " sample_start = Returns false s' [].
Proof.
  apply (jump_key_reported_unhandled sample_names sample_keys sample_start);
    cbn; discriminate.
Defined.

(** A tree under a jumping skier: the frame ends crashed, the jump
    animation is still current, and the state is one that [update] and
    [handleInput] reach. *)
Lemma crash_mid_jump_keeps_animation_sample :
  exists s',
    sample_update [sample_tree] 10 sample_jumping = Returns tt s' [] /\
    sample_reachable_without_die s' /\
    state s' = STATE_CRASHED /\
    curAnimation s' = Some (jumpAnimation sample_names) /\
    ~ (state s' = STATE_JUMPING <-> curAnimation s' <> None).
Proof.
  eapply (crash_mid_jump_keeps_animation
            sample_names sample_keys sample_reducer sample_frame_ms
            sample_intersectTwoRects sample_getImage
            sample_jumping [sample_tree] 10 _ _ sample_tree).
  - exact sample_jumping_reachable.
  - reflexivity.
  - reflexivity.
  - reflexivity.
  - vm_compute. reflexivity.
  - apply (bool_decide_eq_false_1 _). vm_compute. reflexivity.
Defined.

(** A rock under a jumping skier early in the jump, a tree and a ramp under
    a skiing one. *)
Lemma collision_policy_sample :
  (exists s',
      sample_update [sample_rock] 10 sample_jumping = Returns tt s' [] /\
      state s' = STATE_JUMPING /\ speed s' = 1%Q) /\
  (exists s',
      sample_update [sample_tree] 10 sample_start = Returns tt s' [] /\
      state s' = STATE_CRASHED /\ speed s' = 0%Q) /\
  (exists s',
      sample_update [sample_ramp] 10 sample_start = Returns tt s' [] /\
      state s' = STATE_JUMPING /\
      curAnimation s' = Some (jumpAnimation sample_names)).
Proof.
  split; [ | split].
  - destruct (collision_policy
                sample_names sample_keys sample_reducer sample_frame_ms
                sample_intersectTwoRects sample_getImage
                sample_jumping [sample_rock] 10 _ _ sample_rock
                (reachable_without_die_reachable _ _ _ _ _ _ _
                   sample_jumping_reachable)
                eq_refl eq_refl eq_refl)
      as (s' & fired & Hupd & Hjump & _ & _).
    destruct (Hjump eq_refl) as (_ & Hspeed & Hstate).
    { apply (bool_decide_eq_true_1 _). vm_compute. reflexivity. }
    exists s'. split; [ | split; [exact Hstate | exact Hspeed]].
    rewrite Hupd. f_equal.
    vm_compute in Hupd. inversion Hupd. reflexivity.
  - destruct (collision_policy
                sample_names sample_keys sample_reducer sample_frame_ms
                sample_intersectTwoRects sample_getImage
                sample_start [sample_tree] 10 _ _ sample_tree
                (reachable_without_die_reachable _ _ _ _ _ _ _
                   sample_start_reachable)
                eq_refl eq_refl eq_refl)
      as (s' & fired & Hupd & _ & Hcrash & _).
    destruct (Hcrash eq_refl) as (Hstate & Hspeed & _).
    { apply (bool_decide_eq_false_1 _). vm_compute. reflexivity. }
    exists s'. split; [ | split; [exact Hstate | exact Hspeed]].
    rewrite Hupd. f_equal.
    vm_compute in Hupd. inversion Hupd. reflexivity.
  - destruct (collision_policy
                sample_names sample_keys sample_reducer sample_frame_ms
                sample_intersectTwoRects sample_getImage
                sample_start [sample_ramp] 10 _ _ sample_ramp
                (reachable_without_die_reachable _ _ _ _ _ _ _
                   sample_start_reachable)
                eq_refl eq_refl eq_refl)
      as (s' & fired & Hupd & _ & _ & Hramp).
    destruct (Hramp eq_refl) as (Hstate & Hcur).
    { apply (bool_decide_eq_true_1 _). vm_compute. reflexivity. }
    exists s'. split; [ | split; [exact Hstate | exact Hcur]].
    rewrite Hupd. f_equal.
    vm_compute in Hupd. inversion Hupd. reflexivity.
Defined.

(** C3 as stated fails: a jumping skier on the fifth image of the jump
    animation (reached by the jump key and four frames 251 ms apart) passes
    over a rock, a jumpable obstacle, in a frame 251 ms after the last one;
    the collision is ignored, the animation step of that same frame plays
    past the last image, and after the frame the state is skiing, not
    jumping. *)
Lemma jumpable_hit_frame_can_end_skiing :
  exists s s1 bounds s',
    sample_reachable_without_die s /\
    state s = STATE_JUMPING /\
    move sample_reducer s = Returns tt s1 [] /\
    getBounds sample_getImage s1 = Returns bounds s1 [] /\
    List.find (fun obstacle =>
                 sample_intersectTwoRects bounds
                   (Obstacle.getBounds obstacle))
              [sample_rock] = Some sample_rock /\
    Obstacle.imageName sample_rock ∈ JUMPABLE_OBSTACLES sample_names /\
    sample_update [sample_rock] 1255 s =
      Returns tt s' [finishJumping_bound] /\
    state s' = STATE_SKIING /\
    state s' <> STATE_JUMPING.
Proof.
  exists (set_curAnimationFrame 4%nat
            (set_curAnimationFrameTime 1004
               (set_imageName (Some "skierJump5")
                  (set_y 104%Q sample_jumping)))).
  exists (set_curAnimationFrame 4%nat
            (set_curAnimationFrameTime 1004
               (set_imageName (Some "skierJump5")
                  (set_y 105%Q sample_jumping)))).
  exists (Rect.mk (100 - 20 / 2) (105 - 40 / 2) (100 + 20 / 2) (105 - 40 / 4)).
  exists (set_state STATE_SKIING
            (set_curAnimation None
               (set_curAnimationFrame 5%nat
                  (set_curAnimationFrameTime 1255
                     (set_imageName (Some "skierJump5")
                        (set_y 105%Q sample_jumping)))))).
  split.
  { exists [CallHandleInput " "; CallUpdate [] 251; CallUpdate [] 502;
            CallUpdate [] 753; CallUpdate [] 1004].
    split; [reflexivity | ].
    exists 100%Q, 100%Q, 0, []. vm_compute. reflexivity. }
  split; [reflexivity | ].
  split; [vm_compute; reflexivity | ].
  split; [vm_compute; reflexivity | ].
  split; [vm_compute; reflexivity | ].
  split; [apply (bool_decide_eq_true_1 _); vm_compute; reflexivity | ].
  split; [vm_compute; reflexivity | ].
  split; [reflexivity | discriminate].
Qed.

(** Five frames 251 ms apart on the skier that has just jumped. *)
Lemma five_advances_finish_the_jump_sample :
  (exists s4 s5,
      animates sample_frame_ms [251; 502; 753; 1004] sample_jumping =
        Returns tt s4 [] /\
      state s4 = STATE_JUMPING /\
      curAnimation s4 = Some (jumpAnimation sample_names) /\
      curAnimationFrame s4 = 4%nat /\
      animate sample_frame_ms 1255 s4 = Returns tt s5 [finishJumping_bound] /\
      animates sample_frame_ms [251; 502; 753; 1004; 1255] sample_jumping =
        Returns tt s5 [finishJumping_bound] /\
      state s5 = STATE_SKIING /\
      curAnimation s5 = None) /\
  (forall k, (k <= 4)%nat ->
     exists s4 s5,
       (animates sample_frame_ms (firstn k [251; 502; 753; 1004]) ;;
        crash sample_names ;;
        animates sample_frame_ms (skipn k [251; 502; 753; 1004]))
         sample_jumping = Returns tt s4 [] /\
       state s4 = STATE_CRASHED /\
       curAnimation s4 = Some (jumpAnimation sample_names) /\
       animate sample_frame_ms 1255 s4 = Returns tt s5 [finishJumping_bound] /\
       state s5 = STATE_CRASHED /\
       curAnimation s5 = None).
Proof.
  apply (five_advances_finish_the_jump sample_names sample_frame_ms
           sample_jumping 251 502 753 1004 1255);
    reflexivity.
Defined.

(** The crashed sample skier is reachable and stands still. *)
Lemma crashed_or_dead_is_stopped_sample :
  state sample_crashed = STATE_CRASHED /\ speed sample_crashed = 0%Q.
Proof.
  split; [reflexivity | ].
  apply (crashed_or_dead_is_stopped
           sample_names sample_keys sample_reducer sample_frame_ms
           sample_intersectTwoRects sample_getImage sample_crashed).
  - apply reachable_without_die_reachable. exact sample_crashed_reachable.
  - left. reflexivity.
Defined.

(** The dead sample skier ignores frames and keys. *)
Lemma dead_is_terminal_sample :
  (forall obstacles gameTime,
      sample_update obstacles gameTime sample_dead =
        Returns tt sample_dead []) /\
  (forall inputKey,
      sample_handleInput inputKey sample_dead = Returns false sample_dead []) /\
  (forall cs, forallb (fun c => negb (is_die c)) cs = true ->
              calls sample_names sample_keys sample_reducer sample_frame_ms
                sample_intersectTwoRects sample_getImage cs sample_dead =
                Returns tt sample_dead []).
Proof.
  apply (dead_is_terminal
           sample_names sample_keys sample_reducer sample_frame_ms
           sample_intersectTwoRects sample_getImage sample_dead).
  reflexivity.
Defined.

(** Scenario A with a tree far away from the skier. *)
Lemma scenario_A_one_frame_down_sample :
  exists s',
    sample_update [sample_far_tree] 10 sample_start = Returns tt s' [] /\
    y s' = 101%Q /\ y s' = (y sample_start + 1)%Q /\
    x s' = x sample_start /\ x s' = 100%Q /\ state s' = STATE_SKIING.
Proof.
  apply (scenario_A_one_frame_down
           sample_names sample_reducer sample_frame_ms
           sample_intersectTwoRects sample_getImage
           sample_start [sample_far_tree] 10);
    try reflexivity.
  intros s1 bounds Hmove Hbounds obstacle [<- | []].
  vm_compute in Hmove. inversion Hmove; subst s1.
  vm_compute in Hbounds. inversion Hbounds; subst bounds.
  vm_compute. reflexivity.
Defined.

(** The three arrow keys on the skier that has just jumped. *)
Lemma turning_while_jumping_sample :
  (exists s',
      sample_handleInput "ArrowLeft" sample_jumping = Returns true s' [] /\
      state s' = STATE_JUMPING /\
      direction s' = DIRECTION_LEFT_DOWN /\
      imageName s' = Some "skierLeftDown" /\
      curAnimation s' = Some (jumpAnimation sample_names)) /\
  (exists s',
      sample_handleInput "ArrowRight" sample_jumping = Returns true s' [] /\
      state s' = STATE_JUMPING /\
      direction s' = DIRECTION_RIGHT_DOWN /\
      imageName s' = Some "skierRightDown" /\
      curAnimation s' = Some (jumpAnimation sample_names)) /\
  (exists s',
      sample_handleInput "ArrowDown" sample_jumping = Returns true s' [] /\
      state s' = STATE_JUMPING /\
      direction s' = DIRECTION_DOWN /\
      imageName s' = Some "skierDown" /\
      curAnimation s' = Some (jumpAnimation sample_names)).
Proof.
  destruct (turning_while_jumping sample_names sample_keys sample_jumping
              eq_refl)
    as ((sl & _ & Hleft & Hstl & Hcurl & _ & Hstepl & _)
        & (sr & _ & Hright & Hstr & Hcurr & _ & Hstepr & _)
        & (sd & _ & Hdown & Hstd & Hcurd & _ & Hdird & _ & Himgd)).
  split; [ | split].
  - exists sl. destruct Hstepl as (Hdir & Himg & _); [discriminate | ].
    repeat split; assumption.
  - exists sr. destruct Hstepr as (Hdir & Himg & _); [discriminate | ].
    split; [apply Hright; discriminate | ].
    repeat split; assumption.
  - exists sd.
    split; [apply Hdown; discriminate | ].
    repeat split; assumption.
Defined.

(** C9 as stated fails: the skier turns twice to face full-left, jumps, and
    gets one more left arrow.  The key is handled, yet the direction is
    what it was and the image is still the first jump image, not the
    left-facing sprite that belongs to the direction. *)
Lemma turn_left_at_full_left_while_jumping :
  exists s s',
    sample_reachable_without_die s /\
    state s = STATE_JUMPING /\
    sample_handleInput "ArrowLeft" s = Returns true s' [] /\
    state s' = STATE_JUMPING /\
    direction s' = direction s /\
    imageName s' = imageName s /\
    imageName s' = Some "skierJump1" /\
    DIRECTION_IMAGES sample_names !! direction s' = Some "skierLeft" /\
    x s' = (x s - 1)%Q.
Proof.
  exists (set_direction DIRECTION_LEFT sample_jumping).
  eexists.
  split.
  { exists [CallHandleInput "ArrowLeft"; CallHandleInput "ArrowLeft";
            CallHandleInput " "].
    split; [reflexivity | ].
    exists 100%Q, 100%Q, 0, []. vm_compute. reflexivity. }
  split; [reflexivity | ].
  split; [reflexivity | ].
  repeat (split; [reflexivity | ]).
  reflexivity.
Qed.

(** Recovering the crashed sample skier to either side. *)
Lemma crash_recovery_also_moves_sample :
  (exists s',
      sample_handleInput "ArrowLeft" sample_crashed = Returns true s' [] /\
      state s' = STATE_SKIING /\ speed s' = 1%Q /\
      direction s' = DIRECTION_LEFT /\ x s' = (100 - 1)%Q /\
      speed s' <> speed sample_crashed /\
      direction s' <> direction sample_crashed) /\
  (exists s',
      sample_handleInput "ArrowRight" sample_crashed = Returns true s' [] /\
      state s' = STATE_SKIING /\ speed s' = 1%Q /\
      direction s' = DIRECTION_RIGHT /\ x s' = (100 + 1)%Q /\
      speed s' <> speed sample_crashed /\
      direction s' <> direction sample_crashed).
Proof.
  destruct (crash_recovery_also_moves
              sample_names sample_keys sample_reducer sample_frame_ms
              sample_intersectTwoRects sample_getImage sample_crashed
              eq_refl)
    as ((sl & _ & Hleft & Hst & Hsp & Hdir & _ & Hx & _ & _ & _ & _
            & Hdl & Hvl & _)
        & (sr & _ & Hright & Hst' & Hsp' & Hdir' & _ & Hx' & _ & _ & _ & _
              & Hdr & Hvr & _)).
  pose proof (reachable_without_die_reachable _ _ _ _ _ _ _
                sample_crashed_reachable) as Hreach.
  split.
  - exists sl. repeat split; try assumption.
    + apply Hvl, Hreach.
    + apply Hdl. discriminate.
  - exists sr. split; [apply Hright; discriminate | ].
    repeat split; try assumption.
    + apply Hvr, Hreach.
    + apply Hdr. discriminate.
Defined.

(** C10 as stated fails: the skier turns twice to face full-left, runs
    into a tree and crashes facing full-left; the left arrow then recovers
    it (skiing, speed 1, one step to the left), and its direction is what
    it was before the recovery. *)
Lemma recovery_can_keep_the_direction :
  exists s s',
    sample_reachable_without_die s /\
    state s = STATE_CRASHED /\
    turnLeft sample_names s = Returns tt s' [] /\
    sample_handleInput "ArrowLeft" s = Returns true s' [] /\
    state s' = STATE_SKIING /\
    x s' = (x s - 1)%Q /\
    direction s' = direction s /\
    ~ direction s' <> direction s.
Proof.
  exists (set_direction DIRECTION_LEFT
            (set_imageName (Some "skierCrash")
               (set_speed 0%Q (set_state STATE_CRASHED sample_start)))).
  exists (set_x (100 - 1)%Q
            (set_imageName (Some "skierLeft")
               (set_direction DIRECTION_LEFT
                  (set_speed 1%Q (set_state STATE_SKIING sample_start))))).
  split.
  { exists [CallHandleInput "ArrowLeft"; CallHandleInput "ArrowLeft";
            CallUpdate [sample_tree] 10].
    split; [reflexivity | ].
    exists 100%Q, 100%Q, 0, []. vm_compute. reflexivity. }
  split; [reflexivity | ].
  split; [vm_compute; reflexivity | ].
  split; [vm_compute; reflexivity | ].
  split; [reflexivity | ].
  split; [reflexivity | ].
  split; [reflexivity | ].
  intros Hne. apply Hne. reflexivity.
Qed.

(** ** The further properties on the sample configuration *)

(** The jumping sample skier four frames later, on the last jump image. *)
Local Abbreviation sample_last_image :=
  (set_curAnimationFrame 4%nat
     (set_curAnimationFrameTime 1004
        (set_imageName (Some "skierJump5") (set_y 104%Q sample_jumping)))).

(** The sample skier hit by a tree in the first frame of its jump. *)
Local Abbreviation sample_crashed_mid_jump :=
  (set_imageName (Some "skierCrash")
     (set_speed 0%Q (set_state STATE_CRASHED (set_y 101%Q sample_jumping)))).

(** The bounds of the sample skier one frame down from its start. *)
Local Abbreviation sample_bounds :=
  (Rect.mk (100 - 20 / 2) (101 - 40 / 2) (100 + 20 / 2) (101 - 40 / 4)).

Lemma direction_and_image_always_defined_sample :
  DIRECTION_LEFT <= direction sample_jumping <= DIRECTION_RIGHT /\
  DIRECTION_IMAGES sample_names !! direction sample_jumping <> None /\
  imageName sample_jumping <> None.
Proof.
  apply (direction_and_image_always_defined
           sample_names sample_keys sample_reducer sample_frame_ms
           sample_intersectTwoRects sample_getImage sample_jumping).
  apply reachable_without_die_reachable. exact sample_jumping_reachable.
Defined.

Lemma moving_states_have_starting_speed_sample :
  speed sample_jumping = STARTING_SPEED.
Proof.
  apply (moving_states_have_starting_speed
           sample_names sample_keys sample_reducer sample_frame_ms
           sample_intersectTwoRects sample_getImage sample_jumping).
  - apply reachable_without_die_reachable. exact sample_jumping_reachable.
  - right. reflexivity.
Defined.

Lemma animation_table_is_fixed_sample :
  animations sample_crashed =
    <[STATE_JUMPING := jumpAnimation sample_names]> ∅ /\
  (curAnimation sample_crashed = None \/
   curAnimation sample_crashed = Some (jumpAnimation sample_names)) /\
  (curAnimationFrame sample_crashed <= 5)%nat.
Proof.
  apply (animation_table_is_fixed
           sample_names sample_keys sample_reducer sample_frame_ms
           sample_intersectTwoRects sample_getImage sample_crashed).
  apply reachable_without_die_reachable. exact sample_crashed_reachable.
Defined.

Lemma only_die_kills_sample : state sample_crashed <> STATE_DEAD.
Proof.
  apply (only_die_kills
           sample_names sample_keys sample_reducer sample_frame_ms
           sample_intersectTwoRects sample_getImage sample_crashed).
  exact sample_crashed_reachable.
Defined.

Lemma crashed_skier_waits_for_a_side_key_sample :
  (forall obstacles gameTime,
      sample_update obstacles gameTime sample_crashed =
        Returns tt sample_crashed []) /\
  turnUp sample_crashed = Returns tt sample_crashed [] /\
  turnDown sample_names sample_crashed = Returns tt sample_crashed [] /\
  jump sample_crashed = Returns tt sample_crashed [] /\
  (forall inputKey,
      inputKey <> "ArrowLeft" -> inputKey <> "ArrowRight" ->
      exists handled,
        sample_handleInput inputKey sample_crashed =
          Returns handled sample_crashed []).
Proof.
  apply (crashed_skier_waits_for_a_side_key
           sample_names sample_keys sample_reducer sample_frame_ms
           sample_intersectTwoRects sample_getImage sample_crashed).
  reflexivity.
Defined.

Lemma first_hit_decides_sample :
  sample_update [sample_far_tree; sample_rock; sample_tree] 10 sample_start =
  sample_update [sample_rock] 10 sample_start.
Proof.
  apply (first_hit_decides
           sample_names sample_reducer sample_frame_ms
           sample_intersectTwoRects sample_getImage
           sample_start (set_y 101%Q sample_start) sample_bounds
           [sample_far_tree] sample_rock [sample_tree] 10).
  - vm_compute. reflexivity.
  - vm_compute. reflexivity.
  - intros o [<- | []]. vm_compute. reflexivity.
  - vm_compute. reflexivity.
Defined.

Lemma obstacles_out_of_reach_are_ignored_sample :
  sample_update [sample_far_tree] 10 sample_start =
  sample_update [] 10 sample_start.
Proof.
  apply (obstacles_out_of_reach_are_ignored
           sample_names sample_reducer sample_frame_ms
           sample_intersectTwoRects sample_getImage
           sample_start (set_y 101%Q sample_start) sample_bounds
           [sample_far_tree] 10).
  - vm_compute. reflexivity.
  - vm_compute. reflexivity.
  - intros o [<- | []]. vm_compute. reflexivity.
Defined.

Lemma no_crash_without_a_hit_sample :
  exists hit,
    List.find (fun obstacle =>
                 sample_intersectTwoRects sample_bounds
                   (Obstacle.getBounds obstacle))
              [sample_far_tree; sample_tree] = Some hit /\
    In hit [sample_far_tree; sample_tree] /\
    sample_intersectTwoRects sample_bounds (Obstacle.getBounds hit) = true /\
    (state sample_jumping = STATE_SKIING /\
     Obstacle.imageName hit ∉ JUMP_INITIATING_OBSTACLES sample_names \/
     state sample_jumping = STATE_JUMPING /\
     Obstacle.imageName hit ∉ JUMPABLE_OBSTACLES sample_names).
Proof.
  apply (no_crash_without_a_hit
           sample_names sample_reducer sample_frame_ms
           sample_intersectTwoRects sample_getImage
           sample_jumping [sample_far_tree; sample_tree] 10
           sample_crashed_mid_jump [] (set_y 101%Q sample_jumping)
           sample_bounds).
  - discriminate.
  - vm_compute. reflexivity.
  - vm_compute. reflexivity.
  - vm_compute. reflexivity.
  - reflexivity.
Defined.

Lemma ramp_never_crashes_sample :
  JUMP_INITIATING_OBSTACLES sample_names ⊆ JUMPABLE_OBSTACLES sample_names /\
  Obstacle.imageName sample_ramp ∈ JUMPABLE_OBSTACLES sample_names /\
  state (set_imageName (Some "skierJump1")
           (set_curAnimation (Some (jumpAnimation sample_names))
              (set_state STATE_JUMPING (set_y 101%Q sample_start))))
    <> STATE_CRASHED /\
  state (set_imageName (Some "skierJump1")
           (set_curAnimation (Some (jumpAnimation sample_names))
              (set_state STATE_JUMPING (set_y 101%Q sample_start))))
    <> STATE_DEAD.
Proof.
  apply (ramp_never_crashes
           sample_names sample_reducer sample_frame_ms
           sample_intersectTwoRects sample_getImage
           sample_start [sample_ramp] 10 _ [] (set_y 101%Q sample_start)
           sample_bounds sample_ramp).
  - left. reflexivity.
  - vm_compute. reflexivity.
  - vm_compute. reflexivity.
  - vm_compute. reflexivity.
  - apply (bool_decide_eq_true_1 _). vm_compute. reflexivity.
  - vm_compute. reflexivity.
Defined.

Lemma looping_animation_wraps_sample :
  exists s',
    nextAnimationFrame 7
      (set_curAnimation
         (Some {| getImages := ["first"; "second"]; getLooping := true;
                  getCallback := finishJumping_bound |})
         (set_curAnimationFrame 1%nat sample_start)) = Returns tt s' [] /\
    curAnimationFrame s' = 0%nat /\
    imageName s' = Some "first".
Proof.
  destruct (looping_animation_wraps
              (set_curAnimation
                 (Some {| getImages := ["first"; "second"];
                          getLooping := true;
                          getCallback := finishJumping_bound |})
                 (set_curAnimationFrame 1%nat sample_start))
              {| getImages := ["first"; "second"]; getLooping := true;
                 getCallback := finishJumping_bound |}
              7 eq_refl eq_refl)
    as (s' & Hstep & _ & Hframe & _ & Himage & _).
  { cbn. lia. }
  exists s'. split; [exact Hstep | ]. split; [exact Hframe | ].
  rewrite Himage, Hframe. reflexivity.
Defined.

Lemma animate_once_per_time_sample :
  (animate sample_frame_ms 251 ;; animate sample_frame_ms 251) sample_jumping =
  animate sample_frame_ms 251 sample_jumping.
Proof.
  apply (animate_once_per_time sample_frame_ms sample_jumping 251). lia.
Defined.

Lemma finished_jump_keeps_its_image_sample :
  exists s',
    animate sample_frame_ms 1255 sample_last_image =
      Returns tt s' [finishJumping_bound] /\
    state s' = STATE_SKIING /\
    curAnimation s' = None /\
    imageName s' = Some "skierJump5" /\
    direction s' = DIRECTION_DOWN /\
    x s' = 100%Q /\ y s' = 104%Q /\ speed s' = 1%Q.
Proof.
  apply (finished_jump_keeps_its_image
           sample_frame_ms sample_last_image (jumpAnimation sample_names)
           1255);
    first [reflexivity | cbn; lia].
Defined.

Lemma turn_one_step_and_back_sample :
  exists s',
    (turnLeft sample_names ;; turnRight sample_names) sample_start =
      Returns tt s' [] /\
    direction s' = DIRECTION_DOWN /\
    imageName s' = Some "skierDown" /\
    x s' = 100%Q /\ y s' = 100%Q.
Proof.
  destruct (turn_one_step_and_back sample_names sample_start)
    as (Hback & _ & _).
  - discriminate.
  - cbn. unfold DIRECTION_LEFT, DIRECTION_DOWN, DIRECTION_RIGHT. lia.
  - destruct Hback as (s' & Hrun & Hdir & Himg & Hx & Hy & _);
      [discriminate | ].
    exists s'. repeat split; assumption.
Defined.

Lemma update_never_moves_up_sample :
  (y sample_start <= y (set_y 101%Q sample_start))%Q /\
  (direction sample_start = DIRECTION_LEFT \/
   direction sample_start = DIRECTION_RIGHT ->
   x (set_y 101%Q sample_start) = x sample_start /\
   y (set_y 101%Q sample_start) = y sample_start).
Proof.
  apply (update_never_moves_up
           sample_names sample_keys sample_reducer sample_frame_ms
           sample_intersectTwoRects sample_getImage
           sample_start [sample_far_tree] 10 (set_y 101%Q sample_start) []).
  - apply reachable_without_die_reachable. exact sample_start_reachable.
  - reflexivity.
  - vm_compute. reflexivity.
Defined.

(** The left arrow on the crashed sample skier: it recovers. *)
Lemma keys_never_crash_sample :
  let recovered :=
    set_x 99%Q
      (set_imageName (Some "skierLeft")
         (set_direction DIRECTION_LEFT
            (set_speed 1%Q (set_state STATE_SKIING sample_crashed)))) in
  @nil Callback = [] /\
  curAnimationFrameTime recovered = curAnimationFrameTime sample_crashed /\
  (state recovered = STATE_CRASHED -> recovered = sample_crashed) /\
  (speed recovered = speed sample_crashed \/
   state sample_crashed = STATE_CRASHED).
Proof.
  apply (keys_never_crash sample_names sample_keys
           sample_crashed "ArrowLeft" true _ []).
  vm_compute. reflexivity.
Defined.
